(** * TIM toolkit: classifier, validator and diagnostics

    A shallow embedding of [tim_toolkit/diagnostics.py],
    [tim_toolkit/classifier.py] and [tim_toolkit/validator.py], with the
    part of Python's [str] and [re] that these modules call.

    Conventions.
    - A Python [str] is a list of characters; a character is an 8-bit
      code point, read as U+0000..U+00FF.  The character tables
      ([isspace], [isalnum], [tolower]) are CPython's on that range.
    - A Python [int] is a [Z]; offsets inside a text are [nat] and are
      injected into [Z] where the program stores them.
    - A Python [float] is a binary64 primitive float.
    - An exception is a value of [result]. *)

From Stdlib Require Import ZArith Ascii Floats.
From stdpp Require Import gmap strings list sorting.

(** A decimal float literal denotes the nearest binary64 value, as it
    does in Python. *)
Set Warnings "-inexact-float".

(** ** Python strings *)

Module Py.

Abbreviation str := (list ascii).

(** A string literal. *)
Definition txt (x : string) : str := Stdlib.Strings.String.list_ascii_of_string x.

Definition code (c : ascii) : N := N_of_ascii c.

Definition between (lo hi n : N) : bool := (lo <=? n)%N && (n <=? hi)%N.

(** [Py_UNICODE_ISSPACE]: the characters [str.split()] splits on and
    the class [\s] of a [str] pattern. *)
Definition isspace (c : ascii) : bool :=
  let n := code c in
  between 9 13 n || between 28 32 n || (n =? 133)%N || (n =? 160)%N.

(** [Py_UNICODE_ISALNUM]: alphabetic, decimal, digit or numeric. *)
Definition isalnum (c : ascii) : bool :=
  let n := code c in
  between 48 57 n || between 65 90 n || between 97 122 n
  || (n =? 170)%N || between 178 179 n || (n =? 181)%N
  || between 185 186 n || between 188 190 n
  || between 192 214 n || between 216 246 n || between 248 255 n.

(** [Py_UNICODE_TOLOWER]. *)
Definition tolower (c : ascii) : ascii :=
  let n := code c in
  if between 65 90 n || (between 192 222 n && negb (n =? 215)%N)
  then ascii_of_N (n + 32) else c.

Definition eqc (a b : ascii) : bool := Ascii.eqb a b.

(** [t.startswith(p)]. *)
Fixpoint startswith (p t : str) : bool :=
  match p, t with
  | [], _ => true
  | a :: p', b :: t' => eqc a b && startswith p' t'
  | _ :: _, [] => false
  end.

(** [p in t]. *)
Fixpoint contains (p t : str) : bool :=
  startswith p t ||
  match t with
  | [] => false
  | _ :: t' => contains p t'
  end.

(** [t.endswith(suf)]. *)
Definition endswith (t suf : str) : bool :=
  startswith (rev suf) (rev t).

(** [t.split()]: the maximal runs of characters that are not white
    space, in order; [cur] is the run being read, reversed. *)
Definition flush (cur : str) : list str :=
  match cur with
  | [] => []
  | _ :: _ => [rev cur]
  end.

Fixpoint split_go (cur : str) (t : str) : list str :=
  match t with
  | [] => flush cur
  | c :: t' =>
      if isspace c then flush cur ++ split_go [] t'
      else split_go (c :: cur) t'
  end.

Definition split (t : str) : list str := split_go [] t.

(** [sep.join(l)]. *)
Fixpoint join (sep : str) (l : list str) : str :=
  match l with
  | [] => []
  | [x] => x
  | x :: l' => x ++ sep ++ join sep l'
  end.

(** [len(l)] as a Python integer. *)
Definition len {A} (l : list A) : Z := Z.of_nat (length l).

(** Exceptions the modelled code can raise. *)
Inductive exn := ZeroDivisionError.

Inductive result (A : Type) :=
| Ok (a : A)
| Raise (e : exn).
Arguments Ok {A} a.
Arguments Raise {A} e.

#[global] Instance result_ret : MRet result := @Ok.

#[global] Instance result_bind : MBind result := fun A B f x =>
  match x with
  | Ok a => f a
  | Raise e => Raise e
  end.

(** [float(n)] for an integer: the nearest binary64 value. *)
Definition float_of_int (n : Z) : float :=
  SF2Prim (binary_normalize prec emax n 0 false).

(** [a / b] on integers: true division.  CPython rounds the exact
    quotient once; for operands below 2^53 in absolute value that is
    the quotient of the two conversions computed here. *)
Definition truediv (a b : Z) : result float :=
  if (b =? 0)%Z then Raise ZeroDivisionError
  else Ok (PrimFloat.div (float_of_int a) (float_of_int b)).

(** [min(a, b)] on floats: [b] when [b < a], else [a]. *)
Definition fmin (a b : float) : float :=
  if PrimFloat.ltb b a then b else a.

(** [x / n] for a float and an integer. *)
Definition fdiv_int (x : float) (n : Z) : result float :=
  if (n =? 0)%Z then Raise ZeroDivisionError
  else Ok (PrimFloat.div x (float_of_int n)).

(** [t.lstrip()], [t.rstrip()] and [t.strip()]. *)
Fixpoint lstrip (t : str) : str :=
  match t with
  | c :: t' => if isspace c then lstrip t' else t
  | [] => []
  end.

Definition rstrip (t : str) : str := rev (lstrip (rev t)).

Definition strip (t : str) : str := rstrip (lstrip t).

(** [t.split(sep)] for a separator of one character: the pieces
    between the separators, at least one; [cur] is the piece being
    read, reversed. *)
Fixpoint split_on_go (sep : ascii) (cur : str) (t : str) : list str :=
  match t with
  | [] => [rev cur]
  | c :: t' =>
      if eqc c sep then rev cur :: split_on_go sep [] t'
      else split_on_go sep (c :: cur) t'
  end.

Definition split_on (sep : ascii) (t : str) : list str :=
  split_on_go sep [] t.

(** [t[i:]]. *)
Definition slice_from (t : str) (i : Z) : str :=
  if (i <? 0)%Z then drop (Z.to_nat (Z.max 0 (len t + i))) t
  else drop (Z.to_nat i) t.

(** [t[:n]] for [n >= 0]. *)
Definition slice_to (t : str) (n : nat) : str := take n t.

End Py.

(** ** The part of [re] the toolkit uses *)

Module Re.
Import Py.

(** Character classes: [\s], [\w] and [.]. *)
Inductive cclass := CSpace | CWord | CAny.

(** Patterns.  The toolkit's expressions repeat single characters
    only ([\s+], [\w+], [.*?]); [Opt] is the greedy [(?:r)?]. *)
Inductive regex :=
| Empty
| Lit (c : ascii)
| Cls (k : cclass)
| Cat (r1 r2 : regex)
| Alt (r1 r2 : regex)
| Opt (r : regex)
| Plus (k : cclass)
| LazyStar (k : cclass)
| Group (n : nat) (r : regex)
| Backref (n : nat)
| NegLook (r : regex).

Record flags := { IGNORECASE : bool; DOTALL : bool }.

Record Pattern := { p_re : regex; p_flags : flags }.

(** [re.compile(r, fl)]. *)
Definition compile (r : regex) (fl : flags) : Pattern :=
  {| p_re := r; p_flags := fl |}.

Definition in_class (fl : flags) (k : cclass) (c : ascii) : bool :=
  match k with
  | CSpace => isspace c
  | CWord => isalnum c || eqc c "_"
  | CAny => DOTALL fl || negb (eqc c "010")
  end.

(** A literal of the pattern against a character of the text. *)
Definition lit_eq (fl : flags) (c d : ascii) : bool :=
  if IGNORECASE fl then eqc (tolower c) (tolower d) else eqc c d.

(** Captured groups: number and captured text, latest first. *)
Definition caps := list (nat * str).

Fixpoint getcap (n : nat) (cs : caps) : option str :=
  match cs with
  | [] => None
  | (m, w) :: cs' => if (m =? n)%nat then Some w else getcap n cs'
  end.

(** The text after a copy of [w] at the head of [t], if there is one. *)
Fixpoint strip_ref (fl : flags) (w t : str) : option str :=
  match w, t with
  | [], _ => Some t
  | a :: w', b :: t' => if lit_eq fl a b then strip_ref fl w' t' else None
  | _ :: _, [] => None
  end.

Definition orelse {A} (x y : option A) : option A :=
  match x with
  | Some _ => x
  | None => y
  end.

Section Repeat.
Context {A : Type} (p : ascii -> bool).

(** Greedy repetition: the longest run first, then shorter ones. *)
Fixpoint star_greedy (t : str) (i : nat) (k : str -> nat -> option A)
  : option A :=
  match t with
  | c :: t' =>
      if p c then orelse (star_greedy t' (S i) k) (k t i) else k t i
  | [] => k t i
  end.

Definition plus_greedy (t : str) (i : nat) (k : str -> nat -> option A)
  : option A :=
  match t with
  | c :: t' => if p c then star_greedy t' (S i) k else None
  | [] => None
  end.

(** Lazy repetition: the shortest run first, then longer ones. *)
Fixpoint star_lazy (t : str) (i : nat) (k : str -> nat -> option A)
  : option A :=
  orelse (k t i)
    match t with
    | c :: t' => if p c then star_lazy t' (S i) k else None
    | [] => None
    end.

End Repeat.

(** The backtracking matcher: [rmatch fl r t i cs k] matches [r] at
    the head of [t], which starts at offset [i], with the groups [cs]
    set, and hands the rest of the text, its offset and the groups to
    [k]; alternatives are tried in the order of the engine. *)
Fixpoint rmatch {A : Type} (fl : flags) (r : regex) (t : str) (i : nat)
    (cs : caps) (k : str -> nat -> caps -> option A) : option A :=
  match r with
  | Empty => k t i cs
  | Lit c =>
      match t with
      | d :: t' => if lit_eq fl c d then k t' (S i) cs else None
      | [] => None
      end
  | Cls kl =>
      match t with
      | d :: t' => if in_class fl kl d then k t' (S i) cs else None
      | [] => None
      end
  | Cat r1 r2 =>
      rmatch fl r1 t i cs (fun t' j cs' => rmatch fl r2 t' j cs' k)
  | Alt r1 r2 => orelse (rmatch fl r1 t i cs k) (rmatch fl r2 t i cs k)
  | Opt r1 => orelse (rmatch fl r1 t i cs k) (k t i cs)
  | Plus kl => plus_greedy (in_class fl kl) t i (fun t' j => k t' j cs)
  | LazyStar kl => star_lazy (in_class fl kl) t i (fun t' j => k t' j cs)
  | Group n r1 =>
      rmatch fl r1 t i cs
        (fun t' j cs' => k t' j ((n, take (j - i) t) :: cs'))
  | Backref n =>
      match getcap n cs with
      | Some w =>
          match strip_ref fl w t with
          | Some t' => k t' (i + length w) cs
          | None => None
          end
      | None => None
      end
  | NegLook r1 =>
      match rmatch fl r1 t i cs (fun _ _ _ => Some tt) with
      | Some _ => None
      | None => k t i cs
      end
  end.

(** A match object: [start()], [end()], [group()] and the groups. *)
Record Match := {
  m_start : nat;
  m_end : nat;
  m_group : str;
  m_caps : caps
}.

(** [group(n)] for [n >= 1]; an unset group is the empty text here. *)
Definition group (m : Match) (n : nat) : str :=
  default [] (getcap n (m_caps m)).

(** One attempt at offset [i]; [t] is the text from [i] on.  With
    [must_advance] an empty match is refused, as the scanner does
    right after an empty match. *)
Definition match_at (p : Pattern) (t : str) (i : nat)
    (must_advance : bool) : option Match :=
  rmatch (p_flags p) (p_re p) t i []
    (fun _ j cs =>
       if must_advance && (j =? i)%nat then None
       else Some {| m_start := i; m_end := j;
                    m_group := take (j - i) t; m_caps := cs |}).

(** [pattern.search(t)]: the leftmost match. *)
Fixpoint search_from (p : Pattern) (t : str) (i : nat) : option Match :=
  orelse (match_at p t i false)
    match t with
    | _ :: t' => search_from p t' (S i)
    | [] => None
    end.

Definition search (p : Pattern) (t : str) : option Match :=
  search_from p t 0.

(** The matches that start at offset [i], and how many characters
    after [i] lie inside the last of them. *)
Definition matches_here (p : Pattern) (t : str) (i : nat)
  : list Match * nat :=
  match match_at p t i false with
  | None => ([], 0)
  | Some m1 =>
      if (m_end m1 =? i)%nat then
        match match_at p t i true with
        | None => ([m1], 0)
        | Some m2 => ([m1; m2], m_end m2 - i - 1)
        end
      else ([m1], m_end m1 - i - 1)
  end.

(** [pattern.finditer(t)]: the non-overlapping matches from left to
    right; [skip] characters still belong to the previous match. *)
Fixpoint scan (p : Pattern) (t : str) (i : nat) (skip : nat)
  : list Match :=
  match skip with
  | S n =>
      match t with
      | _ :: t' => scan p t' (S i) n
      | [] => []
      end
  | O =>
      let '(here, skip') := matches_here p t i in
      here ++
      match t with
      | _ :: t' => scan p t' (S i) skip'
      | [] => []
      end
  end.

Definition finditer (p : Pattern) (t : str) : list Match := scan p t 0 0.

(** [pattern.findall(t)] for a pattern without capturing groups: the
    matched texts. *)
Definition findall (p : Pattern) (t : str) : list str :=
  m_group <$> finditer p t.

(** Building blocks for writing the expressions down. *)
Fixpoint word (w : str) : regex :=
  match w with
  | [] => Empty
  | [c] => Lit c
  | c :: w' => Cat (Lit c) (word w')
  end.

Definition lit (x : string) : regex := word (txt x).

Fixpoint cat (rs : list regex) : regex :=
  match rs with
  | [] => Empty
  | [r] => r
  | r :: rs' => Cat r (cat rs')
  end.

Fixpoint alt (rs : list regex) : regex :=
  match rs with
  | [] => Empty
  | [r] => r
  | r :: rs' => Alt r (alt rs')
  end.

Definition alts (xs : list string) : regex := alt (lit <$> xs).

(** [\s+], [\w+] and [.*?]. *)
Definition ws : regex := Plus CSpace.
Definition wd : regex := Plus CWord.
Definition lazy_any : regex := LazyStar CAny.

Definition IC : flags := {| IGNORECASE := true; DOTALL := false |}.
Definition ICS : flags := {| IGNORECASE := true; DOTALL := true |}.

End Re.


(** ** What a pattern can match

    The texts a pattern may match, and two static analyses of a
    pattern that bound them.  What a back-reference repeats is left
    open in [lang], which only makes the bounds weaker. *)

Module ReLang.
Import Py Re.

Fixpoint lang (fl : flags) (r : regex) (w : str) : Prop :=
  match r with
  | Empty => w = []
  | Lit c => ∃ d, w = [d] ∧ lit_eq fl c d = true
  | Cls k => ∃ d, w = [d] ∧ in_class fl k d = true
  | Cat r1 r2 => ∃ w1 w2, w = w1 ++ w2 ∧ lang fl r1 w1 ∧ lang fl r2 w2
  | Alt r1 r2 => lang fl r1 w ∨ lang fl r2 w
  | Opt r1 => w = [] ∨ lang fl r1 w
  | Plus k => w ≠ [] ∧ Forall (fun d => in_class fl k d = true) w
  | LazyStar k => Forall (fun d => in_class fl k d = true) w
  | Group _ r1 => lang fl r1 w
  | Backref _ => True
  | NegLook _ => w = []
  end.

(** All 256 characters. *)
Definition all_chars : list ascii :=
  (fun n => ascii_of_nat n) <$> seq 0 256.

Definition forall_char (f : ascii -> bool) : bool := forallb f all_chars.

(** [inked fl r]: every text [r] matches has a character that is not
    white space. *)
Fixpoint inked (fl : flags) (r : regex) : bool :=
  match r with
  | Empty => false
  | Lit c =>
      forall_char (fun d => implb (lit_eq fl c d) (negb (isspace d)))
  | Cls k | Plus k =>
      forall_char (fun d => implb (in_class fl k d) (negb (isspace d)))
  | Cat r1 r2 => inked fl r1 || inked fl r2
  | Alt r1 r2 => inked fl r1 && inked fl r2
  | Group _ r1 => inked fl r1
  | Opt _ | LazyStar _ | Backref _ | NegLook _ => false
  end.

(** A text has a character that is not white space. *)
Definition has_ink (w : str) : bool := existsb (fun c => negb (isspace c)) w.

(** A text has [a] immediately followed by [b]. *)
Fixpoint has_pair (a b : ascii) (w : str) : bool :=
  match w with
  | x :: w' =>
      match w' with
      | y :: _ => (eqc x a && eqc y b) || has_pair a b w'
      | [] => false
      end
  | [] => false
  end.

Section Pair.
Context (fl : flags) (a b : ascii).

(** [r] may match the empty text. *)
Fixpoint may_empty (r : regex) : bool :=
  match r with
  | Empty | Opt _ | LazyStar _ | Backref _ | NegLook _ => true
  | Lit _ | Cls _ | Plus _ => false
  | Cat r1 r2 => may_empty r1 && may_empty r2
  | Alt r1 r2 => may_empty r1 || may_empty r2
  | Group _ r1 => may_empty r1
  end.

(** A text [r] matches may begin with [b]. *)
Fixpoint may_start (r : regex) : bool :=
  match r with
  | Empty | NegLook _ => false
  | Lit c => lit_eq fl c b
  | Cls k | Plus k | LazyStar k => in_class fl k b
  | Cat r1 r2 => may_start r1 || (may_empty r1 && may_start r2)
  | Alt r1 r2 => may_start r1 || may_start r2
  | Opt r1 | Group _ r1 => may_start r1
  | Backref _ => true
  end.

(** A text [r] matches may end with [a]. *)
Fixpoint may_end (r : regex) : bool :=
  match r with
  | Empty | NegLook _ => false
  | Lit c => lit_eq fl c a
  | Cls k | Plus k | LazyStar k => in_class fl k a
  | Cat r1 r2 => may_end r2 || (may_empty r2 && may_end r1)
  | Alt r1 r2 => may_end r1 || may_end r2
  | Opt r1 | Group _ r1 => may_end r1
  | Backref _ => true
  end.

(** A text [r] matches may have [a] immediately followed by [b]. *)
Fixpoint may_pair (r : regex) : bool :=
  match r with
  | Empty | NegLook _ | Lit _ | Cls _ => false
  | Plus k | LazyStar k => in_class fl k a && in_class fl k b
  | Cat r1 r2 => may_pair r1 || may_pair r2 || (may_end r1 && may_start r2)
  | Alt r1 r2 => may_pair r1 || may_pair r2
  | Opt r1 | Group _ r1 => may_pair r1
  | Backref _ => true
  end.

End Pair.

End ReLang.

(** ** [diagnostics.py] *)

Module Diagnostics.
Import Py.

(** Output status indicators. *)
Inductive Status := SUCCESS | UNSTABLE | FAILED.

(** Diagnostic flags for creative compression. *)
Inductive Diagnostic :=
| UNDER_COMPRESSION
| DECOHERENCE
| COERCION_DETECTED
| EXPECTATION_BREAK
| COHERENCE_VERIFIED
| COMPRESSION_RATIO_LOW
| COMPRESSION_RATIO_HIGH
| SEMANTIC_SURPRISE
| NARRATIVE_FLOW_BROKEN
| BOUNDARY_INSIGHT_WEAK.

#[global] Instance Status_eq_dec : EqDecision Status.
Proof. solve_decision. Defined.

#[global] Instance Diagnostic_eq_dec : EqDecision Diagnostic.
Proof. solve_decision. Defined.

(** The [value] of a member, as [to_dict] and [log_report] show it. *)
Definition Status_value (s : Status) : str :=
  match s with
  | SUCCESS => txt "success"
  | UNSTABLE => txt "unstable"
  | FAILED => txt "failed"
  end.

Definition Diagnostic_value (d : Diagnostic) : str :=
  match d with
  | UNDER_COMPRESSION => txt "UnderCompression"
  | DECOHERENCE => txt "Decoherence"
  | COERCION_DETECTED => txt "CoercionDetected"
  | EXPECTATION_BREAK => txt "ExpectationBreak"
  | COHERENCE_VERIFIED => txt "CoherenceVerified"
  | COMPRESSION_RATIO_LOW => txt "CompressionRatioLow"
  | COMPRESSION_RATIO_HIGH => txt "CompressionRatioHigh"
  | SEMANTIC_SURPRISE => txt "SemanticSurprise"
  | NARRATIVE_FLOW_BROKEN => txt "NarrativeFlowBroken"
  | BOUNDARY_INSIGHT_WEAK => txt "BoundaryInsightWeak"
  end.

(** The report; [V] is the type of the values of [metadata]. *)
Record DiagnosticReport (V : Type) := {
  status : Status;
  diagnostics : list Diagnostic;
  compression_ratio : float;
  coherence_score : float;
  breaks_detected : Z;
  coercion_detected : bool;
  metadata : gmap str V
}.
Arguments status {V} _.
Arguments diagnostics {V} _.
Arguments compression_ratio {V} _.
Arguments coherence_score {V} _.
Arguments breaks_detected {V} _.
Arguments coercion_detected {V} _.
Arguments metadata {V} _.

Definition is_valid {V} (self : DiagnosticReport V) : bool :=
  bool_decide (status self = SUCCESS).

Definition has_issues {V} (self : DiagnosticReport V) : bool :=
  bool_decide (0 < len (diagnostics self))%Z.

Definition needs_refinement {V} (self : DiagnosticReport V) : bool :=
  bool_decide (status self = UNSTABLE).

(** *** [DiagnosticValidator] *)

Definition determine_status (diagnostics : list Diagnostic) : Status :=
  if decide (COERCION_DETECTED ∈ diagnostics) then FAILED
  else if decide (DECOHERENCE ∈ diagnostics) then UNSTABLE
  else if decide (COHERENCE_VERIFIED ∈ diagnostics) then SUCCESS
  else if decide (0 < len diagnostics)%Z then UNSTABLE
  else SUCCESS.

Definition validate_compression_ratio (ratio : float) : option Diagnostic :=
  if PrimFloat.ltb ratio 0.5 then Some COMPRESSION_RATIO_LOW
  else if PrimFloat.ltb 2.0 ratio then Some COMPRESSION_RATIO_HIGH
  else None.

Definition validate_coherence_score (score : float) : option Diagnostic :=
  if PrimFloat.ltb score 0.6 then Some DECOHERENCE
  else if PrimFloat.leb 0.8 score then Some COHERENCE_VERIFIED
  else None.

(** [diagnostics.append(d)] when the check returned a flag. *)
Definition append_if (d : option Diagnostic) (diagnostics : list Diagnostic)
  : list Diagnostic :=
  match d with
  | Some x => diagnostics ++ [x]
  | None => diagnostics
  end.

Definition build_report {V} (compression_ratio coherence_score : float)
    (breaks_detected : Z) (coercion_detected semantic_surprise : bool)
    (metadata : option (gmap str V)) : DiagnosticReport V :=
  let diagnostics := [] in
  let ratio_diag := validate_compression_ratio compression_ratio in
  let diagnostics := append_if ratio_diag diagnostics in
  let coherence_diag := validate_coherence_score coherence_score in
  let diagnostics := append_if coherence_diag diagnostics in
  let diagnostics :=
    if coercion_detected then diagnostics ++ [COERCION_DETECTED]
    else diagnostics in
  let diagnostics :=
    if decide (0 < breaks_detected)%Z then diagnostics ++ [EXPECTATION_BREAK]
    else diagnostics in
  let diagnostics :=
    if semantic_surprise then diagnostics ++ [SEMANTIC_SURPRISE]
    else diagnostics in
  let status := determine_status diagnostics in
  {| status := status;
     diagnostics := diagnostics;
     compression_ratio := compression_ratio;
     coherence_score := coherence_score;
     breaks_detected := breaks_detected;
     coercion_detected := coercion_detected;
     metadata := default ∅ metadata |}.

(** *** [DiagnosticLogger] *)

Definition suggest_refinement {V} (report : DiagnosticReport V)
  : option str :=
  if decide (UNDER_COMPRESSION ∈ diagnostics report) then
    Some (txt "Expand the joke further; the insight needs more unfolding.")
  else if decide (DECOHERENCE ∈ diagnostics report) then
    Some (txt "Refocus the narrative; the core insight is getting lost.")
  else if decide (COERCION_DETECTED ∈ diagnostics report) then
    Some (txt "Reframe as invitation, not demand. Let the reader choose.")
  else if decide (COMPRESSION_RATIO_LOW ∈ diagnostics report) then
    Some (txt "The expansion is too minimal. Add more verses or layers.")
  else if decide (COMPRESSION_RATIO_HIGH ∈ diagnostics report) then
    Some (txt "The expansion is too verbose. Tighten the narrative.")
  else if decide (BOUNDARY_INSIGHT_WEAK ∈ diagnostics report) then
    Some (txt "Strengthen the boundary insight; it's the anchor of the song.")
  else None.

(** *** [DiagnosticReport.to_dict] *)

(** The values of the serialized report. *)
Inductive field (V : Type) :=
| FStr (s : str)
| FStrs (l : list str)
| FFloat (x : float)
| FInt (n : Z)
| FBool (b : bool)
| FDict (m : gmap str V).
Arguments FStr {V} s.
Arguments FStrs {V} l.
Arguments FFloat {V} x.
Arguments FInt {V} n.
Arguments FBool {V} b.
Arguments FDict {V} m.

Definition to_dict {V} (self : DiagnosticReport V) : gmap str (field V) :=
  list_to_map [
    (txt "status", FStr (Status_value (status self)));
    (txt "diagnostics", FStrs (Diagnostic_value <$> diagnostics self));
    (txt "compression_ratio", FFloat (compression_ratio self));
    (txt "coherence_score", FFloat (coherence_score self));
    (txt "breaks_detected", FInt (breaks_detected self));
    (txt "coercion_detected", FBool (coercion_detected self));
    (txt "metadata", FDict (metadata self))
  ].

End Diagnostics.

(** ** [classifier.py] *)

Module Classifier.
Import Py Re.

(** Represents a detected expectation break. *)
Record ExpectationBreak := {
  break_type : str;
  position : Z;
  content : str;
  confidence : float;
  explanation : str
}.

(** Patterns that signal semantic surprise or expectation breaks. *)
Definition SURPRISE_MARKERS : list regex := [
  cat [lit "because"; ws; NegLook (lit "of")];
  cat [lit "but"; ws; alts ["the"; "it"; "they"]];
  cat [lit "actually"; ws];
  cat [lit "instead"; ws];
  lit "paradox";
  lit "contradiction";
  cat [lit "however"; ws];
  cat [lit "yet"; ws];
  cat [lit "though"; ws];
  cat [lit "despite"; ws]
].

(** Patterns that indicate reversal (kept by the class, read by no
    method). *)
Definition REVERSAL_PATTERNS : list (regex * regex) := [
  (cat [Group 1 wd; ws; alts ["is"; "was"]; ws; Group 2 wd],
   cat [Backref 2; ws; lit "is"; ws; Backref 1]);
  (cat [lit "not"; ws; Group 1 wd],
   cat [lit "instead"; ws; wd])
].

(** Patterns that indicate paradox. *)
Definition PARADOX_PATTERNS : list regex := [
  cat [alts ["can"; "could"; "must"; "should"]; ws;
       alts ["and"; "but"; "yet"]; ws;
       alts ["cannot"; "couldn't"; "mustn't"; "shouldn't"]];
  cat [alts ["true"; "real"; "false"; "fake"]; ws;
       alts ["and"; "but"; "yet"]; ws;
       alts ["false"; "fake"; "true"; "real"]];
  cat [alts ["yes"; "no"]; ws;
       alts ["and"; "but"; "yet"]; ws;
       alts ["no"; "yes"]]
].

(** The instance: the compiled pattern tables. *)
Record ExpectationBreakClassifier := {
  surprise_patterns : list Pattern;
  paradox_patterns : list Pattern
}.

Definition __init__ : ExpectationBreakClassifier :=
  {| surprise_patterns := (fun p => compile p IC) <$> SURPRISE_MARKERS;
     paradox_patterns := (fun p => compile p IC) <$> PARADOX_PATTERNS |}.

(** The characters written between the two groups of a reversal's
    explanation, as the bytes of the source file. *)
Definition reversal_arrow : str :=
  [" "; "195"; "162"; "226"; "128"; "160"; "226"; "128"; "157"; " "]%char.

(** Detect subject-object or value reversals. *)
Definition _detect_reversals (content : str) : list ExpectationBreak :=
  let reversal_pattern :=
    compile
      (cat [Group 1 wd; ws; alts ["is"; "was"]; ws; Group 2 wd; lazy_any;
            Group 3 (Backref 2); ws; alts ["is"; "was"]; ws;
            Group 4 (Backref 1)])
      ICS in
  (fun m =>
     {| break_type := txt "reversal";
        position := Z.of_nat (m_start m);
        content := m_group m;
        confidence := 0.85;
        explanation :=
          txt "Reversal: " ++ group m 1 ++ reversal_arrow ++ group m 2 |})
  <$> finditer reversal_pattern content.

(** Detect contrast patterns. *)
Definition _detect_contrasts (content : str) : list ExpectationBreak :=
  let contrast_pattern :=
    compile
      (cat [alts ["expected"; "assumed"; "thought"; "believed"]; lazy_any;
            alts ["but"; "however"; "yet"; "instead"]; lazy_any;
            alts ["actually"; "really"; "truly"]])
      ICS in
  (fun m =>
     {| break_type := txt "contrast";
        position := Z.of_nat (m_start m);
        content := m_group m;
        confidence := 0.8;
        explanation :=
          txt "Expectation contrast: " ++ take 50 (m_group m) ++ txt "..." |})
  <$> finditer contrast_pattern content.

(** [breaks.sort(key=lambda b: b.position)]: a stable sort; a break is
    put in front of the first later one whose position is not
    smaller. *)
Fixpoint insert_by_position (b : ExpectationBreak)
    (l : list ExpectationBreak) : list ExpectationBreak :=
  match l with
  | [] => [b]
  | x :: l' =>
      if (position b <=? position x)%Z then b :: l
      else x :: insert_by_position b l'
  end.

Definition sort_by_position (l : list ExpectationBreak)
  : list ExpectationBreak :=
  foldr insert_by_position [] l.

(** The breaks one pattern table contributes: every match of every
    pattern, table order first. *)
Definition scan_table (patterns : list Pattern) (content : str)
    (mk : Match -> ExpectationBreak) : list ExpectationBreak :=
  pattern ← patterns; mk <$> finditer pattern content.

Definition detect_breaks (self : ExpectationBreakClassifier)
    (content : str) : list ExpectationBreak :=
  let breaks := [] in
  let breaks := breaks ++
    scan_table (surprise_patterns self) content (fun m =>
      {| break_type := txt "surprise_marker";
         position := Z.of_nat (m_start m);
         content := m_group m;
         confidence := 0.7;
         explanation := txt "Semantic surprise at: " ++ m_group m |}) in
  let breaks := breaks ++
    scan_table (paradox_patterns self) content (fun m =>
      {| break_type := txt "paradox";
         position := Z.of_nat (m_start m);
         content := m_group m;
         confidence := 0.9;
         explanation := txt "Paradox detected: " ++ m_group m |}) in
  let reversals := _detect_reversals content in
  let breaks := breaks ++ reversals in
  let contrasts := _detect_contrasts content in
  let breaks := breaks ++ contrasts in
  sort_by_position breaks.

Definition calculate_surprise_density (self : ExpectationBreakClassifier)
    (content : str) : result float :=
  let breaks := detect_breaks self content in
  match breaks with
  | [] => Ok 0.0%float
  | _ :: _ =>
      let word_count := len (split content) in
      let break_count := len breaks in
      q ← truediv break_count word_count;
      let density := fmin 1.0 (q * 10) in
      Ok density
  end.

(** The number of breaks of one type. *)
Definition count_type (ty : str) (breaks : list ExpectationBreak) : Z :=
  len (filter (fun b => break_type b = ty) breaks).

Definition classify_content_type (self : ExpectationBreakClassifier)
    (content : str) : str :=
  let breaks := detect_breaks self content in
  match breaks with
  | [] => txt "straightforward"
  | _ :: _ =>
      let break_types := break_type <$> breaks in
      if decide (txt "paradox" ∈ break_types) then txt "paradox"
      else if decide (txt "reversal" ∈ break_types) then txt "reversal"
      else if decide (2 < count_type (txt "surprise_marker") breaks)%Z
      then txt "joke"
      else if decide (txt "contrast" ∈ break_types)
      then txt "contrast_narrative"
      else txt "semantic_surprise"
  end.

Definition extract_core_insight (self : ExpectationBreakClassifier)
    (content : str) : option str :=
  let breaks := detect_breaks self content in
  match breaks with
  | [] => None
  | primary_break :: _ =>
      let start_pos :=
        (position primary_break + len (Classifier.content primary_break))%Z in
      let insight := strip (slice_from content start_pos) in
      let sentences := split_on "." insight in
      match sentences with
      | s0 :: _ => Some (strip s0)
      | [] => Some (slice_to insight 100)
      end
  end.

(** The values of the scores: integers and floats. *)
Inductive score := SInt (n : Z) | SFloat (x : float).

Section Scores.
(** [sum] of a sequence of floats; its rounding is the interpreter's. *)
Context (fsum : list float -> float).

Definition score_expectation_breaks (self : ExpectationBreakClassifier)
    (content : str) : result (gmap str score) :=
  let breaks := detect_breaks self content in
  surprise_density ← calculate_surprise_density self content;
  average_confidence ←
    match breaks with
    | _ :: _ => fdiv_int (fsum (confidence <$> breaks)) (len breaks)
    | [] => Ok 0.0%float
    end;
  Ok (list_to_map [
    (txt "surprise_density", SFloat surprise_density);
    (txt "break_count", SInt (len breaks));
    (txt "average_confidence", SFloat average_confidence);
    (txt "paradox_count", SInt (count_type (txt "paradox") breaks));
    (txt "reversal_count", SInt (count_type (txt "reversal") breaks));
    (txt "contrast_count", SInt (count_type (txt "contrast") breaks))
  ]).

End Scores.

End Classifier.

(** ** [validator.py] *)

Module Validator.
Import Py Re.

(** Terms that indicate coercion or manipulation. *)
Definition COERCION_TERMS : list regex := [
  cat [lit "must"; ws; alts ["believe"; "accept"; "agree"; "understand"]];
  cat [lit "you"; ws; Opt (cat [lit "have"; ws]); lit "to"; ws;
       alts ["believe"; "accept"; "agree"]];
  alts ["obviously"; "clearly"; "obviously"; "undeniably"];
  cat [Opt (cat [lit "no"; ws]);
       alt [lit "one"; lit "person";
            cat [lit "reasonable"; ws; lit "person"]]; ws;
       alts ["can"; "could"; "would"]; ws;
       alts ["disagree"; "argue"]];
  cat [Opt (cat [lit "if"; ws]); lit "you"; ws;
       alts ["don't"; "can't"]; ws;
       alts ["see"; "understand"; "agree"]];
  cat [alts ["only"; "just"; "simply"]; ws;
       alts ["believe"; "accept"; "understand"]];
  alt [cat [lit "everyone"; ws; lit "knows"];
       cat [lit "it's"; ws; lit "common"; ws; lit "knowledge"]];
  cat [Opt (cat [lit "you"; ws;
                 alt [lit "must"; cat [lit "have"; ws; lit "to"]]; ws]);
       alts ["admit"; "confess"; "acknowledge"]]
].

(** Terms that indicate emotional manipulation. *)
Definition EMOTIONAL_MANIPULATION_TERMS : list regex := [
  cat [Opt (cat [lit "you"; ws]); Opt (cat [lit "should"; ws]);
       alts ["feel"; "be"]; ws;
       alts ["ashamed"; "guilty"; "afraid"; "scared"]];
  cat [Opt (cat [lit "if"; ws]); lit "you"; ws;
       alts ["really"; "truly"; "genuinely"]; ws;
       alts ["care"; "love"]];
  cat [alts ["only"; "real"; "true"]; ws;
       alts ["believers"; "followers"; "supporters"]];
  cat [Opt (cat [lit "you"; ws]); alts ["can't"; "won't"]; ws;
       Opt (cat [lit "help"; ws]); alts ["but"; "except"]];
  cat [cat [lit "everyone"; ws;
            alt [lit "else"; cat [lit "around"; ws; lit "you"]]]; ws;
       alts ["knows"; "believes"; "agrees"]]
].

(** Terms that indicate pressure/urgency. *)
Definition PRESSURE_TERMS : list regex := [
  cat [alts ["act"; "decide"; "choose"]; ws;
       alts ["now"; "immediately"; "today"]];
  cat [alts ["limited"; "only"; "exclusive"]; ws;
       alts ["time"; "offer"; "opportunity"]];
  cat [alts ["don't"; "can't"]; ws; alts ["wait"; "delay"; "hesitate"]];
  cat [alts ["before"; "unless"]; ws; Opt (cat [lit "it's"; ws]);
       lit "too"; ws; lit "late"];
  alt [lit "hurry"; lit "rush"; cat [lit "act"; ws; lit "fast"]]
].

(** Terms that indicate authority claims. *)
Definition AUTHORITY_TERMS : list regex := [
  cat [alts ["I"; "we"]; ws;
       alt [lit "know"; lit "understand";
            cat [lit "have"; ws; lit "discovered"]]; ws;
       Opt (cat [lit "the"; ws]); lit "truth"];
  cat [alts ["expert"; "authority"; "specialist"]; ws;
       alts ["says"; "claims"; "believes"]];
  cat [alts ["scientific"; "proven"; "verified"]; ws;
       alts ["fact"; "truth"]];
  alt [cat [lit "according"; ws; lit "to"];
       cat [lit "research"; ws; lit "shows"];
       cat [lit "studies"; ws; lit "prove"]]
].

(** The instance: the compiled pattern tables. *)
Record TIMValidator := {
  coercion_patterns : list Pattern;
  emotional_patterns : list Pattern;
  pressure_patterns : list Pattern;
  authority_patterns : list Pattern
}.

Definition __init__ : TIMValidator :=
  {| coercion_patterns := (fun p => compile p IC) <$> COERCION_TERMS;
     emotional_patterns :=
       (fun p => compile p IC) <$> EMOTIONAL_MANIPULATION_TERMS;
     pressure_patterns := (fun p => compile p IC) <$> PRESSURE_TERMS;
     authority_patterns := (fun p => compile p IC) <$> AUTHORITY_TERMS |}.

(** The loop the four checks share: for every pattern of the table,
    [findall], and when there are matches one message made of the
    label and [matches[0]]. *)
Definition check_patterns (label : str) (patterns : list Pattern)
    (content : str) : list str :=
  foldl
    (fun violations pattern =>
       let matches := findall pattern content in
       match matches with
       | m0 :: _ => violations ++ [label ++ m0]
       | [] => violations
       end)
    [] patterns.

Definition _check_coercion (self : TIMValidator) (content : str)
  : list str :=
  check_patterns (txt "Coercive language detected: ")
    (coercion_patterns self) content.

Definition _check_emotional_manipulation (self : TIMValidator)
    (content : str) : list str :=
  check_patterns (txt "Emotional manipulation detected: ")
    (emotional_patterns self) content.

Definition _check_pressure (self : TIMValidator) (content : str)
  : list str :=
  check_patterns (txt "Pressure/urgency tactic detected: ")
    (pressure_patterns self) content.

Definition _check_authority_claims (self : TIMValidator) (content : str)
  : list str :=
  check_patterns (txt "Authority claim detected: ")
    (authority_patterns self) content.

(** Check for coherence issues. *)
Definition _check_coherence (content : str) : list str :=
  let violations := [] in
  let contradiction_pattern :=
    compile
      (cat [alts ["true"; "real"; "correct"]; lazy_any;
            alts ["false"; "fake"; "wrong"]])
      ICS in
  let violations :=
    match search contradiction_pattern content with
    | Some _ => violations ++ [txt "Potential contradiction detected"]
    | None => violations
    end in
  let violations :=
    if existsb (endswith content)
         [txt "but"; txt "however"; txt "yet"; txt "because"]
    then violations ++ [txt "Incomplete thought at end of content"]
    else violations in
  violations.

(** [constraints.get(key, True)]. *)
Definition get_switch (constraints : gmap str bool) (key : string) : bool :=
  default true (constraints !! txt key).

Definition validate (self : TIMValidator) (content : str)
    (constraints : option (gmap str bool)) : bool * list str :=
  let constraints :=
    match constraints with
    | None => {[ txt "non_coercion" := true ]}
    | Some c => c
    end in
  let violations := [] in
  let violations :=
    if get_switch constraints "non_coercion" then
      let coercion_violations := _check_coercion self content in
      let violations := violations ++ coercion_violations in
      let emotional_violations :=
        _check_emotional_manipulation self content in
      let violations := violations ++ emotional_violations in
      let pressure_violations := _check_pressure self content in
      let violations := violations ++ pressure_violations in
      let authority_violations := _check_authority_claims self content in
      violations ++ authority_violations
    else violations in
  let violations :=
    if get_switch constraints "coherence" then
      let coherence_violations := _check_coherence content in
      violations ++ coherence_violations
    else violations in
  (bool_decide (len violations = 0%Z), violations).

(** The tips [suggest_reframe] appends for one violation. *)
Definition reframe_tips (violation : str) : list str :=
  let suggestions := [] in
  let suggestions :=
    if contains (txt "Coercive language") violation then
      suggestions ++
      [txt "Reframe as invitation: 'You might consider...' instead of 'You must...'"]
    else suggestions in
  let suggestions :=
    if contains (txt "Emotional manipulation") violation then
      suggestions ++
      [txt "Appeal to understanding, not emotion: 'This perspective shows...' instead of 'You should feel...'"]
    else suggestions in
  let suggestions :=
    if contains (txt "Pressure/urgency") violation then
      suggestions ++
      [txt "Remove time pressure: 'This is worth considering' instead of 'Act now'"]
    else suggestions in
  let suggestions :=
    if contains (txt "Authority claim") violation then
      suggestions ++
      [txt "Share perspective humbly: 'One way to see this...' instead of 'The truth is...'"]
    else suggestions in
  suggestions.

Definition suggest_reframe (self : TIMValidator) (content : str)
  : option str :=
  let '(is_valid, violations) := validate self content None in
  if is_valid then None
  else
    let suggestions :=
      foldl (fun suggestions violation =>
               suggestions ++ reframe_tips violation) [] violations in
    match suggestions with
    | _ :: _ => Some (join (txt " ") suggestions)
    | [] => None
    end.

Definition calculate_coercion_score (self : TIMValidator) (content : str)
  : result float :=
  let '(is_valid, violations) := validate self content None in
  if is_valid then Ok 0.0%float
  else
    let violation_count := len violations in
    let word_count := len (split content) in
    q ← truediv violation_count (Z.max word_count 1);
    let coercion_density := (q * 100)%float in
    Ok (fmin 1.0 coercion_density).

Definition invitational_patterns : list regex := [
  cat [Opt (cat [lit "you"; ws]); alts ["might"; "could"; "may"]; ws;
       alts ["consider"; "explore"; "think"]];
  cat [Opt (cat [lit "one"; ws]); alts ["way"; "perspective"; "approach"]];
  alts ["perhaps"; "maybe"; "possibly"];
  cat [Opt (cat [lit "if"; ws]); Opt (cat [lit "you"; ws]);
       alts ["choose"; "prefer"; "decide"]];
  alt [lit "worth"; lit "interesting"; cat [lit "worth"; ws; lit "exploring"]]
].

Definition calculate_invitation_score (self : TIMValidator)
    (content : str) : result float :=
  coercion_score ← calculate_coercion_score self content;
  let invitational_count :=
    foldl (fun invitational_count pattern =>
             (invitational_count + len (findall (compile pattern IC) content))%Z)
      0%Z invitational_patterns in
  let word_count := len (split content) in
  q ← truediv invitational_count (Z.max word_count 1);
  let invitational_density := (q * 100)%float in
  let invitation_score :=
    ((1.0 - coercion_score) * (1.0 + fmin 0.5 (invitational_density / 100)))%float in
  Ok (fmin 1.0 invitation_score).

End Validator.

(** ** Readings of the specification

    Definitions that follow the words of the specification rather than
    the code; the properties below compare the code with them. *)

Module Spec.
Import Py Re Diagnostics.

(** The fixed lookup table of [suggest_refinement], in the order the
    code consults it. *)
Definition refinement_table : list (Diagnostic * str) := [
  (UNDER_COMPRESSION,
   txt "Expand the joke further; the insight needs more unfolding.");
  (DECOHERENCE,
   txt "Refocus the narrative; the core insight is getting lost.");
  (COERCION_DETECTED,
   txt "Reframe as invitation, not demand. Let the reader choose.");
  (COMPRESSION_RATIO_LOW,
   txt "The expansion is too minimal. Add more verses or layers.");
  (COMPRESSION_RATIO_HIGH,
   txt "The expansion is too verbose. Tighten the narrative.");
  (BOUNDARY_INSIGHT_WEAK,
   txt "Strengthen the boundary insight; it's the anchor of the song.")
].

(** The suggestion the table maps a flag to. *)
Definition table_suggestion (d : Diagnostic) : option str :=
  snd <$> head (filter (fun e => e.1 = d) refinement_table).

(** "The first diagnostic in the report's sequence that matches the
    table": the sequence is walked, the table looked up. *)
Definition first_in_sequence (ds : list Diagnostic) : option str :=
  head (omap table_suggestion ds).

(** The table is walked, the sequence looked up. *)
Definition first_in_table (ds : list Diagnostic) : option str :=
  snd <$> head (filter (fun e => e.1 ∈ ds) refinement_table).

(** The first fragment a pattern matches in a text: the text of the
    leftmost match. *)
Definition first_fragment (pattern : Pattern) (content : str) : option str :=
  m_group <$> search pattern content.

(** One message per pattern of a table that matches at all, made of
    the label of the table and the first fragment of that pattern. *)
Definition first_fragments (label : str) (patterns : list Pattern)
    (content : str) : list str :=
  omap (fun pattern => (fun m => label ++ m) <$> first_fragment pattern content)
    patterns.

(** A switch of [validate]: absent constraints are
    [{"non_coercion": True}], an absent key is [True]. *)
Definition enabled (constraints : option (gmap str bool)) (key : string)
  : bool :=
  Validator.get_switch
    (default {[ txt "non_coercion" := true ]} constraints) key.

(** The four reframing tips. *)
Definition tip_coercive : str :=
  txt "Reframe as invitation: 'You might consider...' instead of 'You must...'".
Definition tip_emotional : str :=
  txt "Appeal to understanding, not emotion: 'This perspective shows...' instead of 'You should feel...'".
Definition tip_pressure : str :=
  txt "Remove time pressure: 'This is worth considering' instead of 'Act now'".
Definition tip_authority : str :=
  txt "Share perspective humbly: 'One way to see this...' instead of 'The truth is...'".

(** The tips joined by a space, or nothing when there is none. *)
Definition joined (tips : list str) : option str :=
  match tips with
  | [] => None
  | _ :: _ => Some (join (txt " ") tips)
  end.

(** One tip per violation: [n1] coercive, [n2] emotional, [n3]
    pressure and [n4] authority violations, in that order. *)
Definition reframe_per_violation (n1 n2 n3 n4 : nat) : option str :=
  joined (replicate n1 tip_coercive ++ replicate n2 tip_emotional
          ++ replicate n3 tip_pressure ++ replicate n4 tip_authority).

(** One tip per distinct category present. *)
Definition reframe_per_category (n1 n2 n3 n4 : nat) : option str :=
  joined (replicate (Nat.min n1 1) tip_coercive
          ++ replicate (Nat.min n2 1) tip_emotional
          ++ replicate (Nat.min n3 1) tip_pressure
          ++ replicate (Nat.min n4 1) tip_authority).

(** No message of the table labelled [label] has [a] immediately
    followed by [b]. *)
Definition clear_pair (a b : ascii) (label : str) (patterns : list Pattern)
  : bool :=
  negb (ReLang.has_pair a b label)
  && negb (bool_decide (last label = Some a))
  && forallb (fun p => negb (ReLang.may_pair (p_flags p) a b (p_re p)))
       patterns.

(** [calculate_surprise_density] with the word count floored at one,
    as the two scores of the validator floor it. *)
Definition surprise_density_floored
    (self : Classifier.ExpectationBreakClassifier) (content : str)
  : result float :=
  let breaks := Classifier.detect_breaks self content in
  match breaks with
  | [] => Ok 0.0%float
  | _ :: _ =>
      let word_count := len (split content) in
      let break_count := len breaks in
      q ← truediv break_count (Z.max word_count 1);
      Ok (fmin 1.0 (q * 10))
  end.

(** Ascending order of positions. *)
Definition position_le (a b : Classifier.ExpectationBreak) : Prop :=
  (Classifier.position a ≤ Classifier.position b)%Z.

(** What a break says, without its explanation. *)
Definition summary (b : Classifier.ExpectationBreak) : str * Z * str :=
  (Classifier.break_type b, Classifier.position b, Classifier.content b).

(** The breaks of the four scans in the order [detect_breaks]
    collects them, before it sorts. *)
Definition surprise_break (m : Match) : Classifier.ExpectationBreak :=
  {| Classifier.break_type := txt "surprise_marker";
     Classifier.position := Z.of_nat (m_start m);
     Classifier.content := m_group m;
     Classifier.confidence := 0.7;
     Classifier.explanation := txt "Semantic surprise at: " ++ m_group m |}.

Definition paradox_break (m : Match) : Classifier.ExpectationBreak :=
  {| Classifier.break_type := txt "paradox";
     Classifier.position := Z.of_nat (m_start m);
     Classifier.content := m_group m;
     Classifier.confidence := 0.9;
     Classifier.explanation := txt "Paradox detected: " ++ m_group m |}.

Definition collected_breaks (self : Classifier.ExpectationBreakClassifier)
    (content : str) : list Classifier.ExpectationBreak :=
  Classifier.scan_table (Classifier.surprise_patterns self) content
    surprise_break
  ++ Classifier.scan_table (Classifier.paradox_patterns self) content
       paradox_break
  ++ Classifier._detect_reversals content
  ++ Classifier._detect_contrasts content.

(** The four kinds of break and the confidence of each. *)
Definition break_kinds : list (str * float) := [
  (txt "surprise_marker", 0.7%float);
  (txt "paradox", 0.9%float);
  (txt "reversal", 0.85%float);
  (txt "contrast", 0.8%float)
].

(** The tags [classify_content_type] can return. *)
Definition content_types : list str := [
  txt "straightforward"; txt "paradox"; txt "reversal"; txt "joke";
  txt "contrast_narrative"; txt "semantic_surprise"
].

(** The labels of the four scans of the validator, and the two
    messages of its coherence check. *)
Definition scan_labels : list str := [
  txt "Coercive language detected: ";
  txt "Emotional manipulation detected: ";
  txt "Pressure/urgency tactic detected: ";
  txt "Authority claim detected: "
].

Definition coherence_messages : list str := [
  txt "Potential contradiction detected";
  txt "Incomplete thought at end of content"
].

(** [frag] occurs in [t]. *)
Definition occurs_in (frag t : str) : Prop :=
  ∃ pre post, t = pre ++ frag ++ post.

End Spec.

(** * Properties *)

Import Py Re Diagnostics Spec.

(** ** Order facts on binary64 values *)

Lemma Prim2SF_half : Prim2SF 0.5 = S754_finite false 4503599627370496 (-53).
Proof. vm_compute. reflexivity. Qed.

Lemma Prim2SF_two : Prim2SF 2 = S754_finite false 4503599627370496 (-51).
Proof. vm_compute. reflexivity. Qed.

Lemma Prim2SF_six_tenths :
  Prim2SF 0.6 = S754_finite false 5404319552844595 (-53).
Proof. vm_compute. reflexivity. Qed.

Lemma Prim2SF_eight_tenths :
  Prim2SF 0.8 = S754_finite false 7205759403792794 (-53).
Proof. vm_compute. reflexivity. Qed.

(** Comparisons of a float with the four thresholds, decided on the
    sign, exponent and mantissa of its specification; mantissas are
    compared as integers. *)
Ltac float_order x :=
  rewrite ?ltb_spec, ?leb_spec,
    ?Prim2SF_half, ?Prim2SF_two, ?Prim2SF_six_tenths, ?Prim2SF_eight_tenths;
  destruct (Prim2SF x) as [s|s| |s m e]; try destruct s;
  unfold SFltb, SFleb, SFcompare; try congruence;
  repeat match goal with
  | |- context [Z.compare ?a ?b] => destruct (Z.compare_spec a b)
  | |- context [Pos.compare_cont Eq ?a ?b] =>
      let E := fresh "E" in
      destruct (Pos.compare_cont Eq a b) eqn:E;
      [ apply (Pos.compare_eq a b), (f_equal Z.pos) in E
      | apply (proj1 (Pos.compare_lt_iff a b)), Pos2Z.pos_lt_pos in E
      | apply (proj1 (Pos.compare_gt_iff a b)), Pos2Z.pos_lt_pos in E ]
  end; try congruence; try (intros _; exfalso; lia).

Lemma above_two_not_below_half (x : float) :
  PrimFloat.ltb 2 x = true -> PrimFloat.ltb x 0.5 = false.
Proof. float_order x. Qed.

Lemma from_eight_tenths_not_below_six (x : float) :
  PrimFloat.leb 0.8 x = true -> PrimFloat.ltb x 0.6 = false.
Proof. float_order x. Qed.

Lemma from_six_tenths_not_below (x : float) :
  PrimFloat.leb 0.6 x = true -> PrimFloat.ltb x 0.6 = false.
Proof. float_order x. Qed.

Lemma below_eight_tenths_not_from (x : float) :
  PrimFloat.ltb x 0.8 = true -> PrimFloat.leb 0.8 x = false.
Proof. float_order x. Qed.

(** ** The diagnostic report *)

(** Membership in a list of flags that is known in full. *)
Ltac flag_list :=
  repeat match goal with
  | |- _ ∧ _ => split
  | |- _ ↔ _ => split
  | |- _ → _ => intro
  | |- _ ∈ _ => compute_done
  | |- _ ∉ _ => compute_done
  | |- NoDup _ => compute_done
  | H : _ ∈ _ |- _ => by (apply (bool_decide_pack _) in H; vm_compute in H)
  | H : _ ∉ _ |- _ => by (apply (bool_decide_pack _) in H; vm_compute in H)
  | |- _ => done
  end.

(** The flags of a report, check by check. *)
Lemma build_report_diagnostics {V} (cr cs : float) (bd : Z) (cd ss : bool)
    (md : option (gmap str V)) :
  diagnostics (build_report cr cs bd cd ss md) =
  option_list (validate_compression_ratio cr)
  ++ option_list (validate_coherence_score cs)
  ++ (if cd then [COERCION_DETECTED] else [])
  ++ (if decide (0 < bd)%Z then [EXPECTATION_BREAK] else [])
  ++ (if ss then [SEMANTIC_SURPRISE] else []).
Proof.
  unfold build_report, append_if; simpl.
  destruct (validate_compression_ratio cr), (validate_coherence_score cs),
    cd, (decide (0 < bd)%Z), ss; reflexivity.
Qed.

Lemma build_report_status {V} (cr cs : float) (bd : Z) (cd ss : bool)
    (md : option (gmap str V)) :
  status (build_report cr cs bd cd ss md) =
  determine_status (diagnostics (build_report cr cs bd cd ss md)).
Proof. reflexivity. Qed.

Lemma determine_status_failed (l : list Diagnostic) :
  determine_status l = FAILED ↔ COERCION_DETECTED ∈ l.
Proof.
  unfold determine_status.
  repeat case_decide; split; intros; done.
Qed.

(** C1. For every report that [build_report] returns, the status is
    [FAILED] exactly when [COERCION_DETECTED] is among its diagnostics,
    and with [coercion_detected] true the status is [FAILED] whatever
    the other inputs are. *)
Theorem build_report_failed_iff_coercion {V} (cr cs : float) (bd : Z)
    (cd ss : bool) (md : option (gmap str V)) :
  (status (build_report cr cs bd cd ss md) = FAILED
   ↔ COERCION_DETECTED ∈ diagnostics (build_report cr cs bd cd ss md))
  ∧ status (build_report cr cs bd true ss md) = FAILED.
Proof.
  split.
  - rewrite build_report_status. apply determine_status_failed.
  - rewrite build_report_status. apply determine_status_failed.
    rewrite build_report_diagnostics.
    rewrite !elem_of_app. right; right; left. apply list_elem_of_here.
Qed.

(** C2. [determine_status] resolves by strict priority: [FAILED] when
    [COERCION_DETECTED] is present; else [UNSTABLE] when [DECOHERENCE]
    is; else [SUCCESS] when [COHERENCE_VERIFIED] is; else [UNSTABLE] for
    any other list that is not empty; and [SUCCESS] for the empty
    list. *)
Theorem determine_status_priority (l : list Diagnostic) :
  (COERCION_DETECTED ∈ l → determine_status l = FAILED)
  ∧ (COERCION_DETECTED ∉ l → DECOHERENCE ∈ l →
     determine_status l = UNSTABLE)
  ∧ (COERCION_DETECTED ∉ l → DECOHERENCE ∉ l → COHERENCE_VERIFIED ∈ l →
     determine_status l = SUCCESS)
  ∧ (COERCION_DETECTED ∉ l → DECOHERENCE ∉ l → COHERENCE_VERIFIED ∉ l →
     l ≠ [] → determine_status l = UNSTABLE)
  ∧ determine_status [] = SUCCESS.
Proof.
  unfold determine_status.
  repeat split; intros; repeat case_decide; try done.
  destruct l; [done|]. unfold len in *; simpl in *; lia.
Qed.

Lemma determine_status_priority_witness :
  determine_status [EXPECTATION_BREAK; COERCION_DETECTED; COHERENCE_VERIFIED]
    = FAILED
  ∧ determine_status [COHERENCE_VERIFIED; DECOHERENCE] = UNSTABLE
  ∧ determine_status [EXPECTATION_BREAK; COHERENCE_VERIFIED] = SUCCESS
  ∧ determine_status [EXPECTATION_BREAK] = UNSTABLE.
Proof.
  split_and!.
  - apply (proj1 (determine_status_priority _)). flag_list.
  - apply (proj1 (proj2 (determine_status_priority _))); flag_list.
  - apply (proj1 (proj2 (proj2 (determine_status_priority _)))); flag_list.
  - apply (proj1 (proj2 (proj2 (proj2 (determine_status_priority _)))));
      flag_list.
Defined.

(** C3. [COMPRESSION_RATIO_LOW] is among the diagnostics exactly when
    [compression_ratio < 0.5] and [COMPRESSION_RATIO_HIGH] exactly when
    [compression_ratio > 2.0]; [DECOHERENCE] exactly when
    [coherence_score < 0.6] and [COHERENCE_VERIFIED] exactly when
    [coherence_score >= 0.8]; a score in [0.6, 0.8) gives neither; and
    the report for ratio 1.0, score 0.9, one break and no coercion has
    [COHERENCE_VERIFIED], [EXPECTATION_BREAK] and status [SUCCESS]. *)
Theorem build_report_thresholds {V} (cr cs : float) (bd : Z)
    (cd ss : bool) (md : option (gmap str V)) :
  (COMPRESSION_RATIO_LOW ∈ diagnostics (build_report cr cs bd cd ss md)
   ↔ PrimFloat.ltb cr 0.5 = true)
  ∧ (COMPRESSION_RATIO_HIGH ∈ diagnostics (build_report cr cs bd cd ss md)
     ↔ PrimFloat.ltb 2.0 cr = true)
  ∧ (DECOHERENCE ∈ diagnostics (build_report cr cs bd cd ss md)
     ↔ PrimFloat.ltb cs 0.6 = true)
  ∧ (COHERENCE_VERIFIED ∈ diagnostics (build_report cr cs bd cd ss md)
     ↔ PrimFloat.leb 0.8 cs = true)
  ∧ (PrimFloat.leb 0.6 cs = true → PrimFloat.ltb cs 0.8 = true →
     (DECOHERENCE ∉ diagnostics (build_report cr cs bd cd ss md))
     ∧ (COHERENCE_VERIFIED ∉ diagnostics (build_report cr cs bd cd ss md)))
  ∧ (COHERENCE_VERIFIED
       ∈ diagnostics (build_report 1.0 0.9 1 false false md)
     ∧ EXPECTATION_BREAK
       ∈ diagnostics (build_report 1.0 0.9 1 false false md)
     ∧ status (build_report 1.0 0.9 1 false false md) = SUCCESS).
Proof.
  rewrite build_report_diagnostics.
  unfold validate_compression_ratio, validate_coherence_score.
  pose proof (above_two_not_below_half cr) as Hr.
  pose proof (from_eight_tenths_not_below_six cs) as Hs.
  pose proof (from_six_tenths_not_below cs) as H6.
  pose proof (below_eight_tenths_not_from cs) as H8.
  split_and!.
  6-8: compute_done.
  all: destruct (PrimFloat.ltb cr 0.5) eqn:E1,
         (PrimFloat.ltb 2 cr) eqn:E2,
         (PrimFloat.ltb cs 0.6) eqn:E3,
         (PrimFloat.leb 0.8 cs) eqn:E4,
         cd, (decide (0 < bd)%Z), ss;
       try (by specialize (Hr eq_refl));
       try (by specialize (Hs eq_refl)).
  all: try (intros E6 E7; specialize (H6 E6); specialize (H8 E7)).
  all: simpl; flag_list.
Qed.

Lemma build_report_thresholds_witness :
  (DECOHERENCE
     ∉ diagnostics (build_report (V:=Z) 1.0 0.7 0 false false None))
  ∧ (COHERENCE_VERIFIED
       ∉ diagnostics (build_report (V:=Z) 1.0 0.7 0 false false None)).
Proof.
  apply (proj1 (proj2 (proj2 (proj2 (proj2
    (build_report_thresholds (V:=Z) 1.0 0.7 0 false false None))))));
    reflexivity.
Defined.

(** C10. The diagnostics of a report built by [build_report] have no
    duplicate, at most five entries, and come from the seven flags the
    checks can append; [UNDER_COMPRESSION], [NARRATIVE_FLOW_BROKEN] and
    [BOUNDARY_INSIGHT_WEAK] never appear. *)
Theorem build_report_diagnostics_shape {V} (cr cs : float) (bd : Z)
    (cd ss : bool) (md : option (gmap str V)) :
  NoDup (diagnostics (build_report cr cs bd cd ss md))
  ∧ (length (diagnostics (build_report cr cs bd cd ss md)) ≤ 5)%nat
  ∧ Forall
      (fun d => d ∈ [COMPRESSION_RATIO_LOW; COMPRESSION_RATIO_HIGH;
                     DECOHERENCE; COHERENCE_VERIFIED; COERCION_DETECTED;
                     EXPECTATION_BREAK; SEMANTIC_SURPRISE])
      (diagnostics (build_report cr cs bd cd ss md))
  ∧ Forall
      (fun d => d ∉ [UNDER_COMPRESSION; NARRATIVE_FLOW_BROKEN;
                     BOUNDARY_INSIGHT_WEAK])
      (diagnostics (build_report cr cs bd cd ss md)).
Proof.
  rewrite build_report_diagnostics.
  unfold validate_compression_ratio, validate_coherence_score.
  destruct (PrimFloat.ltb cr 0.5), (PrimFloat.ltb 2 cr),
    (PrimFloat.ltb cs 0.6), (PrimFloat.leb 0.8 cs),
    cd, (decide (0 < bd)%Z), ss;
    split_and!; compute_done.
Qed.

(** C6, as stated, fails: the report for ratio 0.3 and score 0.5 lists
    [COMPRESSION_RATIO_LOW] before [DECOHERENCE]; the first listed flag
    the table knows is [COMPRESSION_RATIO_LOW], and the suggestion
    returned is the one of [DECOHERENCE]. *)
Lemma suggest_refinement_not_first_listed :
  diagnostics (build_report (V:=Z) 0.3 0.5 0 false false None)
    = [COMPRESSION_RATIO_LOW; DECOHERENCE]
  ∧ first_in_sequence
      (diagnostics (build_report (V:=Z) 0.3 0.5 0 false false None))
    = Some (txt "The expansion is too minimal. Add more verses or layers.")
  ∧ suggest_refinement (build_report (V:=Z) 0.3 0.5 0 false false None)
    = Some (txt "Refocus the narrative; the core insight is getting lost.").
Proof. split_and!; vm_compute; reflexivity. Qed.

(** C6, amended. [suggest_refinement] returns the suggestion of the
    first entry of the fixed table, in the table's own order, whose
    flag is among the report's diagnostics, wherever that flag stands
    in the sequence; it returns nothing exactly when no diagnostic of
    the report is in the table. *)
Theorem suggest_refinement_first_in_table {V} (report : DiagnosticReport V) :
  suggest_refinement report = first_in_table (diagnostics report)
  ∧ (suggest_refinement report = None
     ↔ Forall (fun d => table_suggestion d = None) (diagnostics report)).
Proof.
  unfold suggest_refinement, first_in_table, refinement_table.
  split.
  - cbn [filter list_filter fst]. repeat case_decide; done.
  - rewrite Forall_forall. split.
    + intros H d Hd.
      repeat case_decide; try done; destruct d; done.
    + intros H.
      repeat case_decide; try done;
        match goal with
        | Hin : ?d ∈ diagnostics report |- _ =>
            by specialize (H d Hin)
        end.
Qed.

(** ** The break detector *)

Import Classifier.

Lemma insert_by_position_elem (b x : ExpectationBreak)
    (l : list ExpectationBreak) :
  x ∈ insert_by_position b l → x = b ∨ x ∈ l.
Proof.
  induction l as [|y l IH]; simpl.
  - rewrite list_elem_of_singleton. auto.
  - destruct (position b <=? position y)%Z.
    + rewrite elem_of_cons. auto.
    + rewrite !elem_of_cons. intros [->|H]; [auto|].
      destruct (IH H); auto.
Qed.

Lemma insert_by_position_sorted (b : ExpectationBreak)
    (l : list ExpectationBreak) :
  StronglySorted position_le l →
  StronglySorted position_le (insert_by_position b l).
Proof.
  induction 1 as [|y l Hl IH Hy]; simpl.
  - repeat constructor.
  - destruct (position b <=? position y)%Z eqn:E.
    + apply Z.leb_le in E. constructor; [by constructor|].
      constructor; [done|].
      eapply Forall_impl; [exact Hy|].
      unfold position_le. intros; lia.
    + apply Z.leb_gt in E. constructor; [done|].
      apply Forall_forall. intros x Hx.
      apply insert_by_position_elem in Hx as [->|Hx].
      * unfold position_le. lia.
      * by eapply Forall_forall in Hy.
Qed.

Lemma sort_by_position_sorted (l : list ExpectationBreak) :
  StronglySorted position_le (sort_by_position l).
Proof.
  induction l as [|b l IH]; simpl.
  - constructor.
  - by apply insert_by_position_sorted.
Qed.

(** Sorting leaves a sorted list as it is. *)
Lemma sort_by_position_fixed (l : list ExpectationBreak) :
  StronglySorted position_le l → sort_by_position l = l.
Proof.
  induction 1 as [|y l Hl IH Hy]; [done|].
  change (sort_by_position (y :: l))
    with (insert_by_position y (sort_by_position l)).
  rewrite IH.
  destruct Hy as [|x l Hx Hy]; simpl; [done|].
  unfold position_le in Hx.
  by destruct (Z.leb_spec (position y) (position x)); [|lia].
Qed.

(** C8. The breaks [detect_breaks] returns are in ascending order of
    [position]; sorting them again changes nothing; and the result is
    a function of the instance and the text, so that two calls on
    equal inputs return equal sequences. *)
Theorem detect_breaks_sorted (self : ExpectationBreakClassifier)
    (content : str) :
  StronglySorted position_le (detect_breaks self content)
  ∧ sort_by_position (detect_breaks self content)
    = detect_breaks self content
  ∧ (∀ self' content', self' = self → content' = content →
       detect_breaks self' content' = detect_breaks self content).
Proof.
  split_and!.
  - apply sort_by_position_sorted.
  - apply sort_by_position_fixed, sort_by_position_sorted.
  - by intros ?? -> ->.
Qed.

Lemma detect_breaks_sorted_witness :
  detect_breaks Classifier.__init__ (txt "yet it is, but it was")
  = detect_breaks Classifier.__init__ (txt "yet it is, but it was").
Proof.
  apply (proj2 (proj2 (detect_breaks_sorted Classifier.__init__
                         (txt "yet it is, but it was"))));
    reflexivity.
Defined.

(** C7. On "I expected it to fail, but it actually succeeded" the
    detector finds one contrast and two surprise markers ("but it",
    "actually "), so at least one of each, and the text is not
    classified as straightforward. *)
Theorem scenario_expected_but_actually :
  summary <$> detect_breaks Classifier.__init__
                (txt "I expected it to fail, but it actually succeeded")
  = [(txt "contrast", 2%Z, txt "expected it to fail, but it actually");
     (txt "surprise_marker", 23%Z, txt "but it");
     (txt "surprise_marker", 30%Z, txt "actually ")]
  ∧ (1 ≤ count_type (txt "contrast")
           (detect_breaks Classifier.__init__
              (txt "I expected it to fail, but it actually succeeded")))%Z
  ∧ (1 ≤ count_type (txt "surprise_marker")
           (detect_breaks Classifier.__init__
              (txt "I expected it to fail, but it actually succeeded")))%Z
  ∧ classify_content_type Classifier.__init__
      (txt "I expected it to fail, but it actually succeeded")
    = txt "contrast_narrative"
  ∧ classify_content_type Classifier.__init__
      (txt "I expected it to fail, but it actually succeeded")
    ≠ txt "straightforward".
Proof. split_and!; by vm_compute. Qed.

(** ** The matcher *)

Import ReLang.


Lemma all_chars_complete (c : ascii) : c ∈ all_chars.
Proof.
  destruct c as [[] [] [] [] [] [] [] []];
    apply (bool_decide_unpack _); vm_compute; exact I.
Qed.

Lemma forall_char_spec (f : ascii -> bool) :
  forall_char f = true → ∀ c, f c = true.
Proof.
  unfold forall_char. rewrite forallb_forall. intros H c.
  apply H, list_elem_of_In, all_chars_complete.
Qed.

Section Engine.
Context {A : Type}.

Lemma star_greedy_sound (p : ascii -> bool) (t : str) :
  ∀ i (k : str -> nat -> option A) x,
  star_greedy p t i k = Some x →
  ∃ w t', t = w ++ t' ∧ Forall (fun d => p d = true) w
          ∧ k t' (i + length w) = Some x.
Proof.
  assert (Hnil : ∀ t i (k : str -> nat -> option A) x, k t i = Some x →
    ∃ w t', t = w ++ t' ∧ Forall (fun d => p d = true) w
            ∧ k t' (i + length w) = Some x).
  { intros t0 i k x H. exists [], t0. simpl. by rewrite Nat.add_0_r. }
  induction t as [|c t IH]; intros i k x; simpl; [by apply Hnil|].
  destruct (p c) eqn:Hc; [|by apply Hnil].
  destruct (star_greedy p t (S i) k) as [y|] eqn:E; simpl.
  - intros [= ->]. apply IH in E as (w & t' & -> & Hw & Hk).
    exists (c :: w), t'. split_and!; [done|by constructor|].
    simpl. by rewrite Nat.add_succ_r.
  - by apply Hnil.
Qed.

Lemma plus_greedy_sound (p : ascii -> bool) (t : str) i
    (k : str -> nat -> option A) x :
  plus_greedy p t i k = Some x →
  ∃ w t', t = w ++ t' ∧ w ≠ [] ∧ Forall (fun d => p d = true) w
          ∧ k t' (i + length w) = Some x.
Proof.
  destruct t as [|c t]; simpl; [done|].
  destruct (p c) eqn:Hc; [|done].
  intros (w & t' & -> & Hw & Hk)%star_greedy_sound.
  exists (c :: w), t'. split_and!; [done|done|by constructor|].
  simpl. by rewrite Nat.add_succ_r.
Qed.

Lemma star_lazy_sound (p : ascii -> bool) (t : str) :
  ∀ i (k : str -> nat -> option A) x,
  star_lazy p t i k = Some x →
  ∃ w t', t = w ++ t' ∧ Forall (fun d => p d = true) w
          ∧ k t' (i + length w) = Some x.
Proof.
  induction t as [|c t IH]; intros i k x; simpl.
  - destruct (k [] i) eqn:E; simpl; [|done].
    intros [= ->]. exists [], []. simpl. by rewrite Nat.add_0_r.
  - destruct (k (c :: t) i) eqn:E; simpl.
    + intros [= ->]. exists [], (c :: t). simpl. by rewrite Nat.add_0_r.
    + destruct (p c) eqn:Hc; [|done].
      intros (w & t' & -> & Hw & Hk)%IH.
      exists (c :: w), t'. split_and!; [done|by constructor|].
      simpl. by rewrite Nat.add_succ_r.
Qed.

Lemma strip_ref_sound (fl : flags) (w : str) :
  ∀ t t', strip_ref fl w t = Some t' →
  ∃ u, t = u ++ t' ∧ length u = length w.
Proof.
  induction w as [|a w IH]; intros t t'; simpl.
  - intros [= ->]. by exists [].
  - destruct t as [|b t]; [done|].
    destruct (lit_eq fl a b); [|done].
    intros (u & -> & Hu)%IH. exists (b :: u). simpl. by rewrite Hu.
Qed.

(** Whatever the matcher accepts is a text of the pattern followed by
    what the continuation accepted. *)
Lemma rmatch_sound (fl : flags) (r : regex) :
  ∀ t i cs (k : str -> nat -> caps -> option A) x,
  rmatch fl r t i cs k = Some x →
  ∃ w t' cs', t = w ++ t' ∧ lang fl r w
              ∧ k t' (i + length w) cs' = Some x.
Proof.
  induction r as [|c|kl|r1 IH1 r2 IH2|r1 IH1 r2 IH2|r1 IH1|kl|kl
                  |n r1 IH1|n|r1 IH1];
    intros t i cs k x; simpl.
  - intros H. exists [], t, cs. simpl. by rewrite Nat.add_0_r.
  - destruct t as [|d t]; [done|]. destruct (lit_eq fl c d) eqn:E; [|done].
    intros H. exists [d], t, cs. simpl. rewrite Nat.add_1_r. eauto.
  - destruct t as [|d t]; [done|].
    destruct (in_class fl kl d) eqn:E; [|done].
    intros H. exists [d], t, cs. simpl. rewrite Nat.add_1_r. eauto.
  - intros (w1 & t1 & cs1 & -> & H1 & H)%IH1.
    apply IH2 in H as (w2 & t2 & cs2 & -> & H2 & H).
    exists (w1 ++ w2), t2, cs2. rewrite length_app, Nat.add_assoc.
    split_and!; [by rewrite app_assoc|by exists w1, w2|done].
  - destruct (rmatch fl r1 t i cs k) eqn:E; simpl.
    + intros [= ->]. apply IH1 in E as (w & t' & cs' & -> & Hw & H).
      exists w, t', cs'. auto.
    + intros (w & t' & cs' & -> & Hw & H)%IH2.
      exists w, t', cs'. auto.
  - destruct (rmatch fl r1 t i cs k) eqn:E; simpl.
    + intros [= ->]. apply IH1 in E as (w & t' & cs' & -> & Hw & H).
      exists w, t', cs'. auto.
    + intros H. exists [], t, cs. simpl. rewrite Nat.add_0_r. auto.
  - intros (w & t' & -> & Hne & Hw & H)%plus_greedy_sound.
    exists w, t', cs. auto.
  - intros (w & t' & -> & Hw & H)%star_lazy_sound.
    exists w, t', cs. auto.
  - intros (w & t' & cs' & -> & Hw & H)%IH1. eauto 10.
  - destruct (getcap n cs) as [w0|]; [|done].
    destruct (strip_ref fl w0 t) as [t'|] eqn:E; [|done].
    apply strip_ref_sound in E as (u & -> & Hu).
    intros H. exists u, t', cs. rewrite Hu. auto.
  - destruct (rmatch fl r1 t i cs _); [done|].
    intros H. exists [], t, cs. simpl. rewrite Nat.add_0_r. auto.
Qed.

End Engine.

(** A match is a text of the pattern at the head of what was scanned. *)
Lemma match_at_sound (p : Pattern) (t : str) (i : nat) (adv : bool)
    (m : Match) :
  match_at p t i adv = Some m →
  ∃ t', t = m_group m ++ t' ∧ lang (p_flags p) (p_re p) (m_group m)
        ∧ m_start m = i ∧ m_end m = i + length (m_group m).
Proof.
  unfold match_at.
  intros (w & t' & cs' & -> & Hw & H)%rmatch_sound.
  destruct (adv && (i + length w =? i)); [done|].
  injection H as <-. simpl.
  replace (i + length w - i) with (length w) by lia.
  rewrite take_app_length. eauto.
Qed.

Lemma matches_here_sound (p : Pattern) (t : str) (i : nat) (m : Match) :
  m ∈ (matches_here p t i).1 →
  ∃ t', t = m_group m ++ t' ∧ lang (p_flags p) (p_re p) (m_group m)
        ∧ m_start m = i.
Proof.
  unfold matches_here.
  destruct (match_at p t i false) as [m1|] eqn:E1; simpl.
  2: by intros ?%elem_of_nil.
  apply match_at_sound in E1 as (t1 & H1 & L1 & S1 & _).
  destruct (m_end m1 =? i).
  - destruct (match_at p t i true) as [m2|] eqn:E2; simpl.
    + apply match_at_sound in E2 as (t2 & H2 & L2 & S2 & _).
      rewrite !elem_of_cons.
      intros [->|[->|?%elem_of_nil]]; [by exists t1|by exists t2|done].
    + rewrite list_elem_of_singleton. intros ->. by exists t1.
  - simpl. rewrite list_elem_of_singleton. intros ->. by exists t1.
Qed.

(** Every match of [finditer] is a text of the pattern inside the
    scanned text, at the offset the match reports. *)
Lemma scan_sound (p : Pattern) (t : str) :
  ∀ i skip m, m ∈ scan p t i skip →
  ∃ pre post, t = pre ++ m_group m ++ post
              ∧ lang (p_flags p) (p_re p) (m_group m)
              ∧ m_start m = i + length pre.
Proof.
  induction t as [|c t IH]; intros i skip m.
  - destruct skip; simpl; [|by intros ?%elem_of_nil].
    destruct (matches_here p [] i) as [here skip'] eqn:E.
    rewrite app_nil_r. intros Hm.
    assert (Hm' : m ∈ (matches_here p [] i).1) by by rewrite E.
    apply matches_here_sound in Hm' as (t' & H & L & S).
    exists [], t'. simpl. by rewrite Nat.add_0_r.
  - destruct skip as [|n]; simpl.
    + destruct (matches_here p (c :: t) i) as [here skip'] eqn:E.
      rewrite elem_of_app. intros [Hm|Hm].
      * assert (Hm' : m ∈ (matches_here p (c :: t) i).1) by by rewrite E.
        apply matches_here_sound in Hm' as (t' & H & L & S).
        exists [], t'. simpl. by rewrite Nat.add_0_r.
      * apply IH in Hm as (pre & post & -> & L & S).
        exists (c :: pre), post. simpl. split_and!; [done|done|lia].
    + intros (pre & post & -> & L & S)%IH.
      exists (c :: pre), post. simpl. split_and!; [done|done|lia].
Qed.

Lemma finditer_sound (p : Pattern) (t : str) (m : Match) :
  m ∈ finditer p t →
  ∃ pre post, t = pre ++ m_group m ++ post
              ∧ lang (p_flags p) (p_re p) (m_group m)
              ∧ m_start m = length pre.
Proof. intros (pre & post & H)%scan_sound. eauto. Qed.

Lemma search_from_sound (p : Pattern) (t : str) :
  ∀ i m, search_from p t i = Some m →
  ∃ pre post, t = pre ++ m_group m ++ post
              ∧ lang (p_flags p) (p_re p) (m_group m).
Proof.
  induction t as [|c t IH]; intros i m; simpl.
  - destruct (match_at p [] i false) as [m1|] eqn:E; simpl; [|done].
    intros [= ->]. apply match_at_sound in E as (t' & H & L & _).
    by exists [], t'.
  - destruct (match_at p (c :: t) i false) as [m1|] eqn:E; simpl.
    + intros [= ->]. apply match_at_sound in E as (t' & H & L & _).
      by exists [], t'.
    + intros (pre & post & -> & L)%IH. by exists (c :: pre), post.
Qed.

(** The first match of [finditer] is the match of [search]. *)
Lemma scan_head (p : Pattern) (t : str) :
  ∀ i, head (scan p t i 0) = search_from p t i.
Proof.
  induction t as [|c t IH]; intros i; simpl; unfold matches_here.
  - destruct (match_at p [] i false) as [m1|]; simpl; [|done].
    destruct (m_end m1 =? i); [|done].
    by destruct (match_at p [] i true).
  - destruct (match_at p (c :: t) i false) as [m1|]; simpl; [|by apply IH].
    destruct (m_end m1 =? i); [|done].
    by destruct (match_at p (c :: t) i true).
Qed.

Lemma findall_head (p : Pattern) (t : str) :
  head (findall p t) = m_group <$> search p t.
Proof.
  unfold findall, finditer, search. rewrite <- scan_head.
  by destruct (scan p t 0 0).
Qed.

(** *** Ink *)

Lemma has_ink_app (w1 w2 : str) :
  has_ink (w1 ++ w2) = has_ink w1 || has_ink w2.
Proof. apply existsb_app. Qed.

Lemma inked_sound (fl : flags) (r : regex) :
  inked fl r = true → ∀ w, lang fl r w → has_ink w = true.
Proof.
  induction r as [|c|kl|r1 IH1 r2 IH2|r1 IH1 r2 IH2|r1 IH1|kl|kl
                  |n r1 IH1|n|r1 IH1]; simpl; try done.
  - intros H w (d & -> & Hd). apply forall_char_spec with (c := d) in H.
    rewrite Hd in H. simpl in *. by rewrite H.
  - intros H w (d & -> & Hd). apply forall_char_spec with (c := d) in H.
    rewrite Hd in H. simpl in *. by rewrite H.
  - intros H w (w1 & w2 & -> & H1 & H2). rewrite has_ink_app.
    apply orb_true_iff in H as [H|H].
    + by rewrite (IH1 H w1 H1).
    + rewrite (IH2 H w2 H2). apply orb_true_r.
  - intros [Ha Hb]%andb_true_iff w [H|H]; auto.
  - intros H w [Hne Hw]. destruct Hw as [|d w Hd Hw]; [done|].
    apply forall_char_spec with (c := d) in H.
    rewrite Hd in H. simpl in *. by rewrite H.
Qed.

(** A text with ink has a word. *)
Lemma split_go_ink (t : str) :
  ∀ cur, cur ≠ [] ∨ has_ink t = true → split_go cur t ≠ [].
Proof.
  induction t as [|c t IH]; intros cur; simpl.
  - intros [H|H]; [|done]. by destruct cur.
  - destruct (isspace c) eqn:E; simpl.
    + intros [H|H].
      * by destruct cur.
      * intros [_ Hnil]%app_eq_nil. by eapply IH; [right|].
    + intros _. apply IH. by left.
Qed.

Lemma split_ink (t : str) : has_ink t = true → (1 ≤ len (split t))%Z.
Proof.
  intros H. unfold split, len.
  pose proof (split_go_ink t [] (or_intror H)).
  destruct (split_go [] t); [done|]. simpl. lia.
Qed.

(** *** Adjacent characters *)

Lemma eqc_eq (x y : ascii) : eqc x y = true ↔ x = y.
Proof. apply Ascii.eqb_eq. Qed.

Lemma has_pair_app (a b : ascii) (w1 w2 : str) :
  has_pair a b (w1 ++ w2) = true →
  has_pair a b w1 = true ∨ has_pair a b w2 = true
  ∨ (last w1 = Some a ∧ head w2 = Some b).
Proof.
  induction w1 as [|x w1 IH]; simpl; [auto|].
  destruct w1 as [|y w1]; simpl in *.
  - destruct w2 as [|z w2]; [done|].
    intros [[Hx Hz]%andb_true_iff|H]%orb_true_iff; [|auto].
    apply eqc_eq in Hx as ->, Hz as ->. auto.
  - intros [H|H]%orb_true_iff; [rewrite H; auto|].
    destruct (IH H) as [H'|[H'|H']]; [rewrite H', orb_true_r| |]; auto.
Qed.

Lemma has_pair_mono (a b : ascii) (pre w post : str) :
  has_pair a b w = true → has_pair a b (pre ++ w ++ post) = true.
Proof.
  intros H. induction pre as [|x pre IH]; simpl.
  - induction w as [|y w IHw]; [done|]. simpl in *.
    destruct w as [|z w]; [done|]. simpl in *.
    apply orb_true_iff in H as [H|H]; [by rewrite H|].
    rewrite (IHw H). apply orb_true_r.
  - destruct (pre ++ w ++ post); [done|]. rewrite IH. apply orb_true_r.
Qed.

Lemma has_pair_elem (a b : ascii) (w : str) :
  has_pair a b w = true → a ∈ w ∧ b ∈ w.
Proof.
  induction w as [|x w IH]; simpl; [done|].
  destruct w as [|y w]; [done|].
  intros [[Hx Hy]%andb_true_iff|H]%orb_true_iff.
  - apply eqc_eq in Hx as ->, Hy as ->.
    split; [apply list_elem_of_here|apply list_elem_of_further, list_elem_of_here].
  - destruct (IH H). split; by apply list_elem_of_further.
Qed.

Lemma head_app_some {X} (w1 w2 : list X) (b : X) :
  head (w1 ++ w2) = Some b →
  head w1 = Some b ∨ (w1 = [] ∧ head w2 = Some b).
Proof. destruct w1; simpl; auto. Qed.

Lemma last_app_some {X} (w1 w2 : list X) (a : X) :
  last (w1 ++ w2) = Some a →
  last w2 = Some a ∨ (w2 = [] ∧ last w1 = Some a).
Proof.
  destruct w2 as [|y w2 _] using rev_ind.
  - rewrite app_nil_r. auto.
  - rewrite app_assoc, !last_snoc. auto.
Qed.

Lemma head_elem {X} (w : list X) (b : X) : head w = Some b → b ∈ w.
Proof. destruct w; simpl; [done|]. intros [= ->]. apply list_elem_of_here. Qed.

Lemma last_elem {X} (w : list X) (a : X) : last w = Some a → a ∈ w.
Proof.
  destruct w as [|y w _] using rev_ind; [done|].
  rewrite last_snoc. intros [= ->]. apply elem_of_app. right.
  apply list_elem_of_here.
Qed.

(** The four bounds hold of every text of the pattern. *)
Lemma pair_sound (fl : flags) (a b : ascii) (r : regex) :
  ∀ w, lang fl r w →
  (w = [] → may_empty r = true)
  ∧ (head w = Some b → may_start fl b r = true)
  ∧ (last w = Some a → may_end fl a r = true)
  ∧ (has_pair a b w = true → may_pair fl a b r = true).
Proof.
  induction r as [|c|kl|r1 IH1 r2 IH2|r1 IH1 r2 IH2|r1 IH1|kl|kl
                  |n r1 IH1|n|r1 IH1]; intros w; simpl.
  - by intros ->.
  - intros (d & -> & Hd). simpl. split_and!; try done; by intros [= <-].
  - intros (d & -> & Hd). simpl. split_and!; try done; by intros [= <-].
  - intros (w1 & w2 & -> & H1 & H2).
    apply IH1 in H1 as (E1 & S1 & L1 & P1).
    apply IH2 in H2 as (E2 & S2 & L2 & P2).
    split_and!.
    + intros [-> ->]%app_eq_nil. by rewrite E1, E2.
    + intros [H|[-> H]]%head_app_some.
      * by rewrite S1.
      * rewrite E1, S2 by done. apply orb_true_r.
    + intros [H|[-> H]]%last_app_some.
      * by rewrite L2.
      * rewrite E2, L1 by done. apply orb_true_r.
    + intros [H|[H|[Ha Hb]]]%has_pair_app.
      * by rewrite P1.
      * rewrite P2 by done. by rewrite orb_true_r.
      * rewrite L1, S2 by done. apply orb_true_r.
  - intros [H|H]; [apply IH1 in H|apply IH2 in H];
      destruct H as (E & S & L & P);
      split_and!; intros H; rewrite ?E, ?S, ?L, ?P by done;
      by rewrite ?orb_true_r.
  - intros [->|H]; [done|]. apply IH1 in H as (E & S & L & P). auto.
  - intros [Hne Hw]. rewrite Forall_forall in Hw. split_and!; [done|..].
    + intros H%head_elem. auto.
    + intros H%last_elem. auto.
    + intros [Ha Hb]%has_pair_elem. by rewrite !Hw.
  - intros Hw. rewrite Forall_forall in Hw. split_and!; [done|..].
    + intros H%head_elem. auto.
    + intros H%last_elem. auto.
    + intros [Ha Hb]%has_pair_elem. by rewrite !Hw.
  - apply IH1.
  - done.
  - by intros ->.
Qed.

(** *** [in] on strings *)

Lemma startswith_app (p t : str) :
  startswith p t = true → ∃ post, t = p ++ post.
Proof.
  revert t. induction p as [|a p IH]; intros t; simpl; [by exists t|].
  destruct t as [|b t]; [done|].
  intros [->%eqc_eq (post & ->)%IH]%andb_true_iff. by exists post.
Qed.

Lemma contains_app (p t : str) :
  contains p t = true → ∃ pre post, t = pre ++ p ++ post.
Proof.
  induction t as [|c t IH]; simpl.
  - rewrite orb_false_r. intros (post & ->)%startswith_app. by exists [], post.
  - intros [(post & ->)%startswith_app|(pre & post & ->)%IH]%orb_true_iff.
    + by exists [], post.
    + by exists (c :: pre), post.
Qed.

Lemma contains_pair (a b : ascii) (p t : str) :
  has_pair a b p = true → has_pair a b t = false → contains p t = false.
Proof.
  intros Hp Ht. destruct (contains p t) eqn:E; [|done].
  apply contains_app in E as (pre & post & ->).
  by rewrite has_pair_mono in Ht.
Qed.

Lemma startswith_prefix (p post : str) : startswith p (p ++ post) = true.
Proof.
  induction p as [|a p IH]; simpl; [done|].
  rewrite IH, andb_true_r. by apply eqc_eq.
Qed.

Lemma contains_prefix (p post : str) : contains p (p ++ post) = true.
Proof.
  pose proof (startswith_prefix p post) as H.
  destruct (p ++ post); simpl; by rewrite H.
Qed.

(** ** The validator *)

Import Spec Validator.

Lemma check_patterns_acc (label : str) (content : str)
    (patterns : list Pattern) :
  ∀ acc,
  foldl
    (fun violations pattern =>
       let matches := findall pattern content in
       match matches with
       | m0 :: _ => violations ++ [label ++ m0]
       | [] => violations
       end)
    acc patterns
  = acc ++ first_fragments label patterns content.
Proof.
  unfold first_fragments.
  induction patterns as [|p l IH]; intros acc; simpl.
  - by rewrite app_nil_r.
  - rewrite IH. unfold first_fragment. rewrite <- findall_head.
    destruct (findall p content); simpl; [done|].
    by rewrite <- app_assoc.
Qed.

(** The loop of a check appends, per pattern, the label and the first
    fragment. *)
Lemma check_patterns_spec (label : str) (patterns : list Pattern)
    (content : str) :
  check_patterns label patterns content
  = first_fragments label patterns content.
Proof. apply check_patterns_acc. Qed.

Lemma first_fragments_length (label : str) (patterns : list Pattern)
    (content : str) :
  length (first_fragments label patterns content) ≤ length patterns.
Proof.
  unfold first_fragments.
  induction patterns as [|p l IH]; simpl; [done|].
  unfold omap in IH.
  destruct (first_fragment p content); simpl; lia.
Qed.

Lemma first_fragments_elem (label : str) (patterns : list Pattern)
    (content : str) (v : str) :
  v ∈ first_fragments label patterns content →
  ∃ p m, p ∈ patterns ∧ v = label ++ m ∧ lang (p_flags p) (p_re p) m.
Proof.
  unfold first_fragments, first_fragment.
  intros (p & Hp & H)%list_elem_of_omap.
  destruct (search p content) as [m|] eqn:E; [|done].
  injection H as <-.
  apply search_from_sound in E as (pre & post & _ & L).
  eauto.
Qed.

(** A marker with [a] immediately followed by [b] is in no message of
    a table that is clear of that pair. *)
Lemma clear_pair_sound (a b : ascii) (label marker : str)
    (patterns : list Pattern) (content : str) (v : str) :
  v ∈ first_fragments label patterns content →
  clear_pair a b label patterns = true →
  has_pair a b marker = true →
  contains marker v = false.
Proof.
  unfold clear_pair.
  intros (p & m & Hin & -> & L)%first_fragments_elem
    [[Hl Hlast]%andb_true_iff Hp]%andb_true_iff Hm.
  apply (contains_pair a b); [done|].
  destruct (has_pair a b (label ++ m)) eqn:E; [|done].
  apply has_pair_app in E as [E|[E|[E _]]].
  - by rewrite E in Hl.
  - rewrite forallb_forall in Hp.
    apply list_elem_of_In, Hp in Hin.
    apply (pair_sound _ a b) in L as (_ & _ & _ & P).
    by rewrite P in Hin.
  - apply negb_true_iff, bool_decide_eq_false in Hlast. done.
Qed.

Lemma own_marker (marker rest label : str) (patterns : list Pattern)
    (content : str) (v : str) :
  label = marker ++ rest →
  v ∈ first_fragments label patterns content →
  contains marker v = true.
Proof.
  intros -> (p & m & _ & -> & _)%first_fragments_elem.
  rewrite <- app_assoc. apply contains_prefix.
Qed.

Abbreviation vd := Validator.__init__.

Lemma tips_of_coercion (content v : str) :
  v ∈ _check_coercion vd content → reframe_tips v = [tip_coercive].
Proof.
  unfold _check_coercion. rewrite check_patterns_spec. intros H.
  unfold reframe_tips.
  rewrite (own_marker (txt "Coercive language") (txt " detected: ")
             _ _ _ _ eq_refl H).
  rewrite (clear_pair_sound "p" "u" _ (txt "Emotional manipulation") _ _ _
             H eq_refl eq_refl).
  rewrite (clear_pair_sound "/" "u" _ (txt "Pressure/urgency") _ _ _
             H eq_refl eq_refl).
  by rewrite (clear_pair_sound "A" "u" _ (txt "Authority claim") _ _ _
             H eq_refl eq_refl).
Qed.

Lemma tips_of_emotional (content v : str) :
  v ∈ _check_emotional_manipulation vd content →
  reframe_tips v = [tip_emotional].
Proof.
  unfold _check_emotional_manipulation. rewrite check_patterns_spec.
  intros H. unfold reframe_tips.
  rewrite (own_marker (txt "Emotional manipulation") (txt " detected: ")
             _ _ _ _ eq_refl H).
  rewrite (clear_pair_sound "o" "e" _ (txt "Coercive language") _ _ _
             H eq_refl eq_refl).
  rewrite (clear_pair_sound "/" "u" _ (txt "Pressure/urgency") _ _ _
             H eq_refl eq_refl).
  by rewrite (clear_pair_sound "A" "u" _ (txt "Authority claim") _ _ _
             H eq_refl eq_refl).
Qed.

Lemma tips_of_pressure (content v : str) :
  v ∈ _check_pressure vd content → reframe_tips v = [tip_pressure].
Proof.
  unfold _check_pressure. rewrite check_patterns_spec.
  intros H. unfold reframe_tips.
  rewrite (own_marker (txt "Pressure/urgency") (txt " tactic detected: ")
             _ _ _ _ eq_refl H).
  rewrite (clear_pair_sound "o" "e" _ (txt "Coercive language") _ _ _
             H eq_refl eq_refl).
  rewrite (clear_pair_sound "p" "u" _ (txt "Emotional manipulation") _ _ _
             H eq_refl eq_refl).
  by rewrite (clear_pair_sound "A" "u" _ (txt "Authority claim") _ _ _
             H eq_refl eq_refl).
Qed.

Lemma tips_of_authority (content v : str) :
  v ∈ _check_authority_claims vd content →
  reframe_tips v = [tip_authority].
Proof.
  unfold _check_authority_claims. rewrite check_patterns_spec.
  intros H. unfold reframe_tips.
  rewrite (own_marker (txt "Authority claim") (txt " detected: ")
             _ _ _ _ eq_refl H).
  rewrite (clear_pair_sound "o" "e" _ (txt "Coercive language") _ _ _
             H eq_refl eq_refl).
  rewrite (clear_pair_sound "p" "u" _ (txt "Emotional manipulation") _ _ _
             H eq_refl eq_refl).
  by rewrite (clear_pair_sound "/" "u" _ (txt "Pressure/urgency") _ _ _
             H eq_refl eq_refl).
Qed.

Lemma tips_of_coherence (content v : str) :
  v ∈ _check_coherence content → reframe_tips v = [].
Proof.
  unfold _check_coherence.
  destruct (search _ content), (existsb _ _); simpl;
    rewrite ?elem_of_cons, ?elem_of_nil; intros H;
    destruct_or?; subst; done.
Qed.

Lemma validate_spec (self : TIMValidator) (content : str)
    (constraints : option (gmap str bool)) :
  (validate self content constraints).2
  = (if enabled constraints "non_coercion" then
       _check_coercion self content
       ++ _check_emotional_manipulation self content
       ++ _check_pressure self content
       ++ _check_authority_claims self content
     else [])
    ++ (if enabled constraints "coherence" then _check_coherence content
        else [])
  ∧ (validate self content constraints).1
    = bool_decide (len (validate self content constraints).2 = 0%Z).
Proof.
  unfold validate, enabled. simpl.
  destruct constraints as [c|]; simpl;
    repeat match goal with
    | |- context [get_switch ?c ?k] => destruct (get_switch c k)
    end; simpl; by rewrite <- ?app_assoc, ?app_nil_r.
Qed.

Lemma len_zero {X} (l : list X) : len l = 0%Z ↔ l = [].
Proof. unfold len. destruct l; simpl; split; (done || lia). Qed.

(** C4. With [non_coercion] enabled, [validate] runs the four scans in
    the fixed order coercive, emotional, pressure, authority (and then
    the coherence check when that switch is on).  A pattern family is
    read as one expression of a scan's table: each expression that
    matches contributes exactly one message, its label followed by the
    text of its first (leftmost) match, whatever the number of matches,
    and one that does not match contributes none, so a scan appends at
    most as many messages as its table has expressions.  [is_valid] is
    true exactly when the list of violations is empty. *)
Theorem validate_non_coercion_scans (self : TIMValidator) (content : str)
    (constraints : option (gmap str bool)) :
  enabled constraints "non_coercion" = true →
  (validate self content constraints).2
  = first_fragments (txt "Coercive language detected: ")
      (coercion_patterns self) content
    ++ first_fragments (txt "Emotional manipulation detected: ")
         (emotional_patterns self) content
    ++ first_fragments (txt "Pressure/urgency tactic detected: ")
         (pressure_patterns self) content
    ++ first_fragments (txt "Authority claim detected: ")
         (authority_patterns self) content
    ++ (if enabled constraints "coherence" then _check_coherence content
        else [])
  ∧ length (_check_coercion self content) ≤ length (coercion_patterns self)
  ∧ length (_check_emotional_manipulation self content)
    ≤ length (emotional_patterns self)
  ∧ length (_check_pressure self content) ≤ length (pressure_patterns self)
  ∧ length (_check_authority_claims self content)
    ≤ length (authority_patterns self)
  ∧ ((validate self content constraints).1 = true
     ↔ (validate self content constraints).2 = []).
Proof.
  intros Hon. destruct (validate_spec self content constraints) as [Hv Hb].
  rewrite Hb, Hv, Hon.
  unfold _check_coercion, _check_emotional_manipulation, _check_pressure,
    _check_authority_claims.
  rewrite !check_patterns_spec, <- !app_assoc.
  split_and!; try done; try apply first_fragments_length.
  rewrite bool_decide_eq_true. apply len_zero.
Qed.

Lemma validate_non_coercion_scans_witness :
  enabled None "non_coercion" = true
  ∧ ((validate vd
        (txt "You must believe this is true. Act now before it's too late.")
        None).1 = true
     ↔ (validate vd
          (txt "You must believe this is true. Act now before it's too late.")
          None).2 = []).
Proof.
  split; [reflexivity|].
  apply (validate_non_coercion_scans vd
           (txt "You must believe this is true. Act now before it's too late.")
           None).
  reflexivity.
Defined.

Lemma foldl_tips (violations : list str) :
  ∀ acc,
  foldl (fun suggestions violation => suggestions ++ reframe_tips violation)
    acc violations
  = acc ++ (violations ≫= reframe_tips).
Proof.
  induction violations as [|v l IH]; intros acc; simpl.
  - by rewrite app_nil_r.
  - by rewrite IH, <- app_assoc.
Qed.

Lemma bind_constant {X Y} (f : X -> list Y) (y : Y) (l : list X) :
  (∀ x, x ∈ l → f x = [y]) → l ≫= f = replicate (length l) y.
Proof.
  induction l as [|x l IH]; intros H; simpl; [done|].
  rewrite (H x) by apply list_elem_of_here. simpl. f_equal.
  apply IH. intros x' Hx'. apply H. by apply list_elem_of_further.
Qed.

Lemma bind_nothing {X Y} (f : X -> list Y) (l : list X) :
  (∀ x, x ∈ l → f x = []) → l ≫= f = [].
Proof.
  induction l as [|x l IH]; intros H; simpl; [done|].
  rewrite (H x) by apply list_elem_of_here. simpl.
  apply IH. intros x' Hx'. apply H. by apply list_elem_of_further.
Qed.

(** The tips [suggest_reframe] collects: one per violation of the four
    scans, none for a coherence violation. *)
Lemma suggestions_spec (content : str) :
  (validate vd content None).2 ≫= reframe_tips
  = replicate (length (_check_coercion vd content)) tip_coercive
    ++ replicate (length (_check_emotional_manipulation vd content))
         tip_emotional
    ++ replicate (length (_check_pressure vd content)) tip_pressure
    ++ replicate (length (_check_authority_claims vd content)) tip_authority.
Proof.
  destruct (validate_spec vd content None) as [-> _].
  change (enabled None "non_coercion") with true.
  change (enabled None "coherence") with true.
  rewrite !bind_app.
  rewrite (bind_constant _ tip_coercive) by apply tips_of_coercion.
  rewrite (bind_constant _ tip_emotional) by apply tips_of_emotional.
  rewrite (bind_constant _ tip_pressure) by apply tips_of_pressure.
  rewrite (bind_constant _ tip_authority) by apply tips_of_authority.
  rewrite (bind_nothing _ (_check_coherence content))
    by apply tips_of_coherence.
  by rewrite <- !app_assoc, app_nil_r.
Qed.

Lemma replicate_nil {X} (n : nat) (x : X) : replicate n x = [] ↔ n = 0.
Proof. destruct n; simpl; split; done. Qed.

(** C5, as stated, fails twice.  The text "but" is not valid (it ends
    in a dangling conjunction) and yet nothing is suggested; and
    "obviously you must believe" has two violations of the one
    category coercive language, for which the tip is given twice, not
    once. *)
Lemma suggest_reframe_not_per_category :
  validate vd (txt "but") None
    = (false, [txt "Incomplete thought at end of content"])
  ∧ suggest_reframe vd (txt "but") = None
  ∧ (validate vd (txt "obviously you must believe") None).2
    = [txt "Coercive language detected: must believe";
       txt "Coercive language detected: obviously"]
  ∧ reframe_per_category 2 0 0 0 = Some tip_coercive
  ∧ suggest_reframe vd (txt "obviously you must believe")
    = Some (tip_coercive ++ txt " " ++ tip_coercive).
Proof. split_and!; vm_compute; reflexivity. Qed.

(** C5, amended.  [suggest_reframe] returns nothing exactly when
    [validate] reports no violation of the four coercion-related
    scans, which is the case when the text is valid and also when its
    only violations are coherence violations; otherwise it returns the
    fixed tips joined by spaces, one tip per violation of those scans
    (a category's tip is repeated for each of its violations), in the
    order of the violations. *)
Theorem suggest_reframe_per_violation (content : str) :
  suggest_reframe vd content
  = reframe_per_violation
      (length (_check_coercion vd content))
      (length (_check_emotional_manipulation vd content))
      (length (_check_pressure vd content))
      (length (_check_authority_claims vd content))
  ∧ (suggest_reframe vd content = None
     ↔ _check_coercion vd content = []
       ∧ _check_emotional_manipulation vd content = []
       ∧ _check_pressure vd content = []
       ∧ _check_authority_claims vd content = [])
  ∧ ((validate vd content None).1 = true →
     suggest_reframe vd content = None).
Proof.
  assert (Hmain : suggest_reframe vd content
                  = joined ((validate vd content None).2 ≫= reframe_tips)).
  { unfold suggest_reframe.
    destruct (validate_spec vd content None) as [_ Hb].
    destruct (validate vd content None) as [is_valid violations].
    simpl in *. rewrite foldl_tips. simpl.
    destruct is_valid; [|by destruct (violations ≫= reframe_tips)].
    symmetry in Hb. apply bool_decide_eq_true, len_zero in Hb.
    by subst. }
  rewrite Hmain, suggestions_spec. unfold reframe_per_violation.
  split_and!; [done| |].
  - set (n1 := length (_check_coercion vd content)).
    set (n2 := length (_check_emotional_manipulation vd content)).
    set (n3 := length (_check_pressure vd content)).
    set (n4 := length (_check_authority_claims vd content)).
    rewrite <- !length_zero_iff_nil. fold n1 n2 n3 n4.
    destruct n1, n2, n3, n4; simpl; split; try done; intros; lia.
  - intros Hv. destruct (validate_spec vd content None) as [Hs Hb].
    rewrite Hb in Hv. apply bool_decide_eq_true, len_zero in Hv.
    rewrite Hv in Hs. symmetry in Hs.
    change (enabled None "non_coercion") with true in Hs.
    apply app_eq_nil in Hs as [Hs _].
    apply app_eq_nil in Hs as [-> Hs].
    apply app_eq_nil in Hs as [-> Hs].
    by apply app_eq_nil in Hs as [-> ->].
Qed.

Lemma suggest_reframe_per_violation_witness :
  (validate vd (txt "Take your time") None).1 = true
  ∧ suggest_reframe vd (txt "Take your time") = None.
Proof.
  split; [reflexivity|].
  apply (suggest_reframe_per_violation (txt "Take your time")).
  reflexivity.
Defined.

(** ** Division *)

Import Classifier.
Abbreviation cd := Classifier.__init__.

Lemma sort_by_position_elem (x : ExpectationBreak)
    (l : list ExpectationBreak) :
  x ∈ sort_by_position l → x ∈ l.
Proof.
  induction l as [|b l IH]; simpl; [done|].
  intros [->|H]%insert_by_position_elem.
  - apply list_elem_of_here.
  - by apply list_elem_of_further, IH.
Qed.

Lemma has_ink_inside (pre w post : str) :
  has_ink w = true → has_ink (pre ++ w ++ post) = true.
Proof.
  intros H. rewrite !has_ink_app, H. by rewrite orb_true_r.
Qed.

(** A match of a pattern whose texts have ink shows that the scanned
    text has ink. *)
Lemma finditer_ink (p : Pattern) (t : str) (m : Match) :
  inked (p_flags p) (p_re p) = true → m ∈ finditer p t →
  has_ink t = true.
Proof.
  intros Hi (pre & post & -> & L & _)%finditer_sound.
  apply has_ink_inside. by eapply inked_sound.
Qed.

Lemma scan_table_ink (patterns : list Pattern) (t : str)
    (mk : Match -> ExpectationBreak) (b : ExpectationBreak) :
  forallb (fun p => inked (p_flags p) (p_re p)) patterns = true →
  b ∈ scan_table patterns t mk → has_ink t = true.
Proof.
  rewrite forallb_forall. unfold scan_table.
  intros Hall (p & (m & _ & Hm)%list_elem_of_fmap & Hp)%list_elem_of_bind.
  apply (finditer_ink p t m); [|done].
  by apply Hall, list_elem_of_In.
Qed.

(** Every pattern of the detector needs a character that is not white
    space, so a text with a break has one. *)
Lemma detect_breaks_ink (content : str) (b : ExpectationBreak) :
  b ∈ detect_breaks cd content → has_ink content = true.
Proof.
  unfold detect_breaks. intros H%sort_by_position_elem.
  rewrite !elem_of_app in H. destruct H as [[[[H|H]|H]|H]|H].
  - by apply elem_of_nil in H.
  - by eapply scan_table_ink; [|exact H]; vm_compute.
  - by eapply scan_table_ink; [|exact H]; vm_compute.
  - unfold _detect_reversals in H.
    apply list_elem_of_fmap in H as (m & _ & Hm).
    by eapply finditer_ink; [|exact Hm]; vm_compute.
  - unfold _detect_contrasts in H.
    apply list_elem_of_fmap in H as (m & _ & Hm).
    by eapply finditer_ink; [|exact Hm]; vm_compute.
Qed.

Lemma truediv_ok (a b : Z) :
  b ≠ 0%Z → ∃ q, truediv a b = Ok q.
Proof.
  intros Hb. unfold truediv.
  destruct (Z.eqb_spec b 0); [done|]. eauto.
Qed.

(** C9. None of the three calculations divides by zero, for any text:
    each returns a value.  The two scores of the validator divide by
    the word count floored at one; [calculate_surprise_density] divides
    by the word count itself, which is at least one whenever a break
    was found, so it computes what the floored division computes. *)
Theorem scores_never_divide_by_zero (content : str) :
  (∃ v, calculate_surprise_density cd content = Ok v)
  ∧ (∃ v, calculate_coercion_score vd content = Ok v)
  ∧ (∃ v, calculate_invitation_score vd content = Ok v)
  ∧ calculate_surprise_density cd content
    = surprise_density_floored cd content
  ∧ (detect_breaks cd content = [] ∨ (1 ≤ len (split content))%Z).
Proof.
  assert (Hw : detect_breaks cd content = []
               ∨ (1 ≤ len (split content))%Z).
  { destruct (detect_breaks cd content) as [|b l] eqn:E; [by left|].
    right. apply split_ink, (detect_breaks_ink content b).
    rewrite E. apply list_elem_of_here. }
  assert (Hc : ∃ v, calculate_coercion_score vd content = Ok v).
  { unfold calculate_coercion_score.
    destruct (validate vd content None) as [[] violations]; [by eexists|].
    destruct (truediv_ok (len violations) (Z.max (len (split content)) 1))
      as [q ->]; [lia|].
    simpl. by eexists. }
  split_and!; [| done | | | done].
  - unfold calculate_surprise_density.
    destruct (detect_breaks cd content) as [|b l] eqn:E; [by eexists|].
    destruct Hw as [|Hw]; [done|].
    destruct (truediv_ok (len (b :: l)) (len (split content)))
      as [q ->]; [lia|].
    simpl. by eexists.
  - unfold calculate_invitation_score. destruct Hc as [v ->]. simpl.
    match goal with
    | |- context [truediv ?a ?b] =>
        destruct (truediv_ok a b) as [q ->]; [lia|]
    end.
    simpl. by eexists.
  - unfold calculate_surprise_density, surprise_density_floored.
    destruct (detect_breaks cd content) as [|b l] eqn:E; [done|].
    destruct Hw as [|Hw]; [done|].
    by rewrite Z.max_l by lia.
Qed.

(** * Further properties *)

(** ** Reports *)

(** X1. [determine_status] looks at which flags are present, not at
    their order or number: two lists with the same members resolve to
    the same status. *)
Theorem determine_status_by_members (l1 l2 : list Diagnostic) :
  (∀ d, d ∈ l1 ↔ d ∈ l2) →
  determine_status l1 = determine_status l2.
Proof.
  intros H. unfold determine_status.
  assert (Hlen : (0 < len l1)%Z ↔ (0 < len l2)%Z).
  { unfold len. destruct l1 as [|a l1], l2 as [|b l2]; simpl; try lia.
    - pose proof (proj2 (H b) (list_elem_of_here _ _)) as Hb.
      by apply elem_of_nil in Hb.
    - pose proof (proj1 (H a) (list_elem_of_here _ _)) as Ha.
      by apply elem_of_nil in Ha. }
  rewrite (decide_ext (0 < len l1)%Z (0 < len l2)%Z) by done.
  rewrite (decide_ext (COHERENCE_VERIFIED ∈ l1) (COHERENCE_VERIFIED ∈ l2))
    by apply H.
  rewrite (decide_ext (DECOHERENCE ∈ l1) (DECOHERENCE ∈ l2)) by apply H.
  by rewrite (decide_ext (COERCION_DETECTED ∈ l1) (COERCION_DETECTED ∈ l2))
    by apply H.
Qed.

Lemma determine_status_by_members_witness :
  determine_status [DECOHERENCE; EXPECTATION_BREAK; DECOHERENCE]
  = determine_status [EXPECTATION_BREAK; DECOHERENCE].
Proof.
  apply determine_status_by_members.
  intros d. rewrite !elem_of_cons, !elem_of_nil. tauto.
Defined.

(** X2. The verdict of a built report in terms of the inputs: it is
    valid exactly when there is no coercion, the score is not below
    0.6, and either the score reaches 0.8 or nothing at all was
    flagged; it needs refinement exactly when there is no coercion and
    either the score is below 0.6 or the score does not reach 0.8
    while some flag was raised. *)
Theorem build_report_verdict {V} (cr cs : float) (bd : Z) (cd ss : bool)
    (md : option (gmap str V)) :
  (is_valid (build_report cr cs bd cd ss md) = true
   ↔ cd = false ∧ PrimFloat.ltb cs 0.6 = false
     ∧ (PrimFloat.leb 0.8 cs = true
        ∨ (PrimFloat.ltb cr 0.5 = false ∧ PrimFloat.ltb 2 cr = false
           ∧ (bd ≤ 0)%Z ∧ ss = false)))
  ∧ (needs_refinement (build_report cr cs bd cd ss md) = true
     ↔ cd = false
       ∧ (PrimFloat.ltb cs 0.6 = true
          ∨ (PrimFloat.leb 0.8 cs = false
             ∧ (PrimFloat.ltb cr 0.5 = true ∨ PrimFloat.ltb 2 cr = true
                ∨ (0 < bd)%Z ∨ ss = true)))).
Proof.
  unfold is_valid, needs_refinement.
  rewrite build_report_status, build_report_diagnostics.
  unfold validate_compression_ratio, validate_coherence_score.
  destruct (PrimFloat.ltb cr 0.5), (PrimFloat.ltb 2 cr),
    (PrimFloat.ltb cs 0.6), (PrimFloat.leb 0.8 cs),
    cd, (decide (0 < bd)%Z), ss; simpl;
    (split;
      (split;
        [ intros HH; vm_compute in HH; try discriminate;
          intuition (done || lia)
        | intros HH; try (by vm_compute); exfalso;
          intuition (done || lia) ])).
Qed.

(** X3. The suggestion for a built report, in terms of the inputs: a
    score below 0.6 asks to refocus, whatever else was flagged, so it
    hides the hint about coercion; then coercion; then a ratio below
    0.5; then a ratio above 2.0; otherwise there is no suggestion, also
    when breaks or semantic surprise made the report unstable. *)
Theorem suggest_refinement_of_build_report {V} (cr cs : float) (bd : Z)
    (cd ss : bool) (md : option (gmap str V)) :
  suggest_refinement (build_report cr cs bd cd ss md)
  = if PrimFloat.ltb cs 0.6 then
      Some (txt "Refocus the narrative; the core insight is getting lost.")
    else if cd then
      Some (txt "Reframe as invitation, not demand. Let the reader choose.")
    else if PrimFloat.ltb cr 0.5 then
      Some (txt "The expansion is too minimal. Add more verses or layers.")
    else if PrimFloat.ltb 2 cr then
      Some (txt "The expansion is too verbose. Tighten the narrative.")
    else None.
Proof.
  unfold suggest_refinement. rewrite build_report_diagnostics.
  unfold validate_compression_ratio, validate_coherence_score.
  destruct (PrimFloat.ltb cr 0.5), (PrimFloat.ltb 2 cr),
    (PrimFloat.ltb cs 0.6), (PrimFloat.leb 0.8 cs),
    cd, (decide (0 < bd)%Z), ss; by vm_compute.
Qed.

(** X4. A built report has no issues exactly when no check fired, and
    then it is valid; a score of 0.8 or more always counts as an issue,
    although such a report can be valid. *)
Theorem has_issues_of_build_report {V} (cr cs : float) (bd : Z)
    (cd ss : bool) (md : option (gmap str V)) :
  (has_issues (build_report cr cs bd cd ss md) = false
   ↔ PrimFloat.ltb cr 0.5 = false ∧ PrimFloat.ltb 2 cr = false
     ∧ PrimFloat.ltb cs 0.6 = false ∧ PrimFloat.leb 0.8 cs = false
     ∧ cd = false ∧ (bd ≤ 0)%Z ∧ ss = false)
  ∧ has_issues (build_report cr cs bd cd ss md)
    || is_valid (build_report cr cs bd cd ss md) = true.
Proof.
  unfold has_issues, is_valid.
  rewrite build_report_status, build_report_diagnostics.
  unfold validate_compression_ratio, validate_coherence_score.
  destruct (PrimFloat.ltb cr 0.5), (PrimFloat.ltb 2 cr),
    (PrimFloat.ltb cs 0.6), (PrimFloat.leb 0.8 cs),
    cd, (decide (0 < bd)%Z), ss; simpl;
    (split; [|by vm_compute]);
    (split;
      [ intros HH; vm_compute in HH; try discriminate;
        intuition (done || lia)
      | intros HH; try (by vm_compute); exfalso;
        intuition (done || lia) ]).
Qed.

(** X5. The diagnostics of a built report stand in the order of the
    checks: ratio, coherence, coercion, breaks, semantic surprise. *)
Theorem build_report_diagnostics_order {V} (cr cs : float) (bd : Z)
    (cd ss : bool) (md : option (gmap str V)) :
  diagnostics (build_report cr cs bd cd ss md)
  `sublist_of` [COMPRESSION_RATIO_LOW; COMPRESSION_RATIO_HIGH;
                DECOHERENCE; COHERENCE_VERIFIED; COERCION_DETECTED;
                EXPECTATION_BREAK; SEMANTIC_SURPRISE].
Proof.
  rewrite build_report_diagnostics.
  unfold validate_compression_ratio, validate_coherence_score.
  destruct (PrimFloat.ltb cr 0.5), (PrimFloat.ltb 2 cr),
    (PrimFloat.ltb cs 0.6), (PrimFloat.leb 0.8 cs),
    cd, (decide (0 < bd)%Z), ss; simpl;
    repeat first [apply sublist_nil | apply sublist_skip | apply sublist_cons].
Qed.

#[local] Instance Status_value_inj : Inj (=) (=) Status_value.
Proof. intros [] [] H; vm_compute in H; by try discriminate. Qed.

#[local] Instance Diagnostic_value_inj : Inj (=) (=) Diagnostic_value.
Proof. intros [] [] H; vm_compute in H; by try discriminate. Qed.

(** What [to_dict] holds under each key. *)
Lemma to_dict_lookup {V} (r : DiagnosticReport V) :
  to_dict r !! txt "status" = Some (FStr (Status_value (status r)))
  ∧ to_dict r !! txt "diagnostics"
    = Some (FStrs (Diagnostic_value <$> diagnostics r))
  ∧ to_dict r !! txt "compression_ratio"
    = Some (FFloat (compression_ratio r))
  ∧ to_dict r !! txt "coherence_score" = Some (FFloat (coherence_score r))
  ∧ to_dict r !! txt "breaks_detected" = Some (FInt (breaks_detected r))
  ∧ to_dict r !! txt "coercion_detected"
    = Some (FBool (coercion_detected r))
  ∧ to_dict r !! txt "metadata" = Some (FDict (metadata r)).
Proof. split_and!; vm_compute; reflexivity. Qed.

(** X6. [to_dict] loses nothing: two reports with the same dictionary
    are the same report (the values of the two enumerations are
    pairwise distinct). *)
Theorem to_dict_inj {V} (r1 r2 : DiagnosticReport V) :
  to_dict r1 = to_dict r2 → r1 = r2.
Proof.
  intros H.
  destruct (to_dict_lookup r1) as (A1 & A2 & A3 & A4 & A5 & A6 & A7).
  destruct (to_dict_lookup r2) as (B1 & B2 & B3 & B4 & B5 & B6 & B7).
  rewrite H in A1, A2, A3, A4, A5, A6, A7.
  rewrite A1 in B1. rewrite A2 in B2. rewrite A3 in B3. rewrite A4 in B4.
  rewrite A5 in B5. rewrite A6 in B6. rewrite A7 in B7.
  injection B1 as B1. injection B2 as B2. injection B3 as B3.
  injection B4 as B4. injection B5 as B5. injection B6 as B6.
  injection B7 as B7.
  apply (inj Status_value) in B1.
  apply (inj (fmap Diagnostic_value)) in B2.
  destruct r1, r2; simpl in *. by subst.
Qed.

Lemma to_dict_inj_witness :
  build_report (V:=Z) 1.0 0.9 1 false false None
  = build_report (V:=Z) 1.0 0.9 1 false false (Some ∅).
Proof. apply to_dict_inj. reflexivity. Defined.

(** ** Breaks *)

Import Classifier.

Lemma detect_breaks_collected (self : ExpectationBreakClassifier)
    (content : str) :
  detect_breaks self content
  = sort_by_position (collected_breaks self content).
Proof.
  unfold detect_breaks, collected_breaks. simpl.
  by rewrite <- !app_assoc.
Qed.

Lemma insert_by_position_perm (b : ExpectationBreak)
    (l : list ExpectationBreak) :
  insert_by_position b l ≡ₚ b :: l.
Proof.
  induction l as [|x l IH]; simpl; [done|].
  destruct (position b <=? position x)%Z; [done|].
  rewrite IH. apply Permutation_swap.
Qed.

Lemma sort_by_position_perm (l : list ExpectationBreak) :
  sort_by_position l ≡ₚ l.
Proof.
  induction l as [|b l IH]; [done|].
  change (sort_by_position (b :: l))
    with (insert_by_position b (sort_by_position l)).
  by rewrite insert_by_position_perm, IH.
Qed.

(** X7. Sorting loses and invents nothing: the breaks returned are the
    breaks of the four scans, each as often as it was found. *)
Theorem detect_breaks_permutation (self : ExpectationBreakClassifier)
    (content : str) :
  detect_breaks self content ≡ₚ collected_breaks self content.
Proof. rewrite detect_breaks_collected. apply sort_by_position_perm. Qed.

Lemma insert_by_position_filter (k : Z) (b : ExpectationBreak)
    (l : list ExpectationBreak) :
  filter (fun x => position x = k) (insert_by_position b l)
  = filter (fun x => position x = k) (b :: l).
Proof.
  induction l as [|x l IH]; simpl; [done|].
  destruct (Z.leb_spec (position b) (position x)); [done|].
  rewrite !filter_cons in *.
  destruct (decide (position x = k)), (decide (position b = k));
    try lia; by rewrite IH.
Qed.

(** X8. The sort is stable: breaks at one position come out in the
    order the scans found them (surprise markers, paradoxes, reversals,
    contrasts; within a table, in table order). *)
Theorem detect_breaks_stable (self : ExpectationBreakClassifier)
    (content : str) (k : Z) :
  filter (fun b => position b = k) (detect_breaks self content)
  = filter (fun b => position b = k) (collected_breaks self content).
Proof.
  rewrite detect_breaks_collected.
  induction (collected_breaks self content) as [|b l IH]; [done|].
  change (sort_by_position (b :: l))
    with (insert_by_position b (sort_by_position l)).
  rewrite insert_by_position_filter, !filter_cons.
  by rewrite IH.
Qed.

Lemma collected_breaks_elem (self : ExpectationBreakClassifier)
    (content : str) (b : ExpectationBreak) :
  b ∈ collected_breaks self content →
  ∃ p m, m ∈ finditer p content
         ∧ position b = Z.of_nat (m_start m) ∧ Classifier.content b = m_group m
         ∧ (break_type b, confidence b) ∈ break_kinds.
Proof.
  unfold collected_breaks, scan_table, _detect_reversals, _detect_contrasts.
  rewrite !elem_of_app, !list_elem_of_bind.
  intros [(p & H & _)|[(p & H & _)|[H|H]]];
    apply list_elem_of_fmap in H as (m & -> & Hm);
    eexists _, m; (split_and!; [exact Hm|done|done|]);
    unfold break_kinds; simpl; rewrite !elem_of_cons; auto.
Qed.

Lemma detect_breaks_elem (self : ExpectationBreakClassifier)
    (content : str) (b : ExpectationBreak) :
  b ∈ detect_breaks self content → b ∈ collected_breaks self content.
Proof. rewrite detect_breaks_collected. apply sort_by_position_elem. Qed.

(** X9. A break points into the text: its position is an offset of
    the text, its content is the text from that offset on, as long as
    the content, and it ends inside the text. *)
Theorem detect_breaks_in_text (self : ExpectationBreakClassifier)
    (content : str) :
  Forall
    (fun b =>
       (0 ≤ position b)%Z
       ∧ (position b + len (Classifier.content b) ≤ len content)%Z
       ∧ Classifier.content b
         = take (length (Classifier.content b))
             (drop (Z.to_nat (position b)) content))
    (detect_breaks self content).
Proof.
  apply Forall_forall. intros b Hb%detect_breaks_elem.
  apply collected_breaks_elem in Hb as (p & m & Hm & -> & -> & _).
  apply finditer_sound in Hm as (pre & post & -> & _ & ->).
  rewrite Nat2Z.id. unfold len. rewrite !length_app.
  split_and!; [lia|lia|].
  by rewrite drop_app_length, take_app_length.
Qed.

(** X10. A break is of one of four kinds, each with its fixed
    confidence, and its content has a character that is not white
    space (so it is never empty). *)
Theorem detect_breaks_kinds (content : str) :
  Forall
    (fun b =>
       (break_type b, confidence b) ∈ break_kinds
       ∧ has_ink (Classifier.content b) = true)
    (detect_breaks Classifier.__init__ content).
Proof.
  apply Forall_forall. intros b Hb%detect_breaks_elem. split.
  - by apply collected_breaks_elem in Hb as (p & m & _ & _ & _ & Hk).
  - revert Hb.
    unfold collected_breaks, scan_table, _detect_reversals,
      _detect_contrasts.
    rewrite !elem_of_app, !list_elem_of_bind.
    assert (Hink : ∀ p m, inked (p_flags p) (p_re p) = true →
                     m ∈ finditer p content → has_ink (m_group m) = true).
    { intros p m Hp (pre & post & _ & L & _)%finditer_sound.
      by eapply inked_sound. }
    intros [(p & H & Hp)|[(p & H & Hp)|[H|H]]];
      apply list_elem_of_fmap in H as (m & -> & Hm); simpl;
      (eapply Hink; [|exact Hm]).
    + clear Hm. revert p Hp. apply Forall_forall. compute_done.
    + clear Hm. revert p Hp. apply Forall_forall. compute_done.
    + by vm_compute.
    + by vm_compute.
Qed.

(** X11. A text without a character other than white space, the empty
    text included, has no breaks: its density is 0.0, it is classified
    straightforward and it has no core insight. *)
Theorem blank_text_has_no_breaks (content : str) :
  has_ink content = false →
  detect_breaks cd content = []
  ∧ calculate_surprise_density cd content = Ok 0.0%float
  ∧ classify_content_type cd content = txt "straightforward"
  ∧ extract_core_insight cd content = None.
Proof.
  intros Hblank.
  assert (H : detect_breaks cd content = []).
  { destruct (detect_breaks cd content) as [|b l] eqn:E; [done|].
    assert (Hb : b ∈ detect_breaks cd content)
      by (rewrite E; apply list_elem_of_here).
    apply detect_breaks_ink in Hb. congruence. }
  unfold calculate_surprise_density, classify_content_type,
    extract_core_insight.
  by rewrite H.
Qed.

Lemma blank_text_has_no_breaks_witness :
  detect_breaks cd (txt "  ") = []
  ∧ calculate_surprise_density cd (txt "  ") = Ok 0.0%float
  ∧ classify_content_type cd (txt "  ") = txt "straightforward"
  ∧ extract_core_insight cd (txt "  ") = None.
Proof. apply blank_text_has_no_breaks. reflexivity. Defined.

Lemma count_type_all (ty : str) (l : list ExpectationBreak) :
  Forall (fun b => break_type b = ty) l → count_type ty l = len l.
Proof.
  unfold count_type, len. induction 1 as [|b l Hb Hl IH]; [done|].
  rewrite filter_cons_True by done. simpl. lia.
Qed.

Lemma count_type_le (ty : str) (l : list ExpectationBreak) :
  (count_type ty l ≤ len l)%Z.
Proof.
  unfold count_type, len. pose proof (length_filter (fun b => break_type b = ty) l).
  lia.
Qed.

Lemma detect_breaks_types (self : ExpectationBreakClassifier)
    (content : str) :
  Forall
    (fun b => break_type b ∈ [txt "surprise_marker"; txt "paradox";
                              txt "reversal"; txt "contrast"])
    (detect_breaks self content).
Proof.
  apply Forall_forall. intros b Hb%detect_breaks_elem.
  apply collected_breaks_elem in Hb as (p & m & _ & _ & _ & Hk).
  unfold break_kinds in Hk. rewrite !elem_of_cons in *.
  destruct Hk as [Hk|[Hk|[Hk|[Hk|Hk]]]]; [..|by apply elem_of_nil in Hk];
    injection Hk as -> _; auto.
Qed.

(** X12. The tag is one of six; it is "straightforward" exactly when
    no break was found, and "semantic_surprise" exactly when the breaks
    are one or two surprise markers and nothing else. *)
Theorem classify_content_type_cases (self : ExpectationBreakClassifier)
    (content : str) :
  classify_content_type self content ∈ content_types
  ∧ (classify_content_type self content = txt "straightforward"
     ↔ detect_breaks self content = [])
  ∧ (classify_content_type self content = txt "semantic_surprise"
     ↔ (length (detect_breaks self content) = 1
        ∨ length (detect_breaks self content) = 2)
       ∧ Forall (fun b => break_type b = txt "surprise_marker")
           (detect_breaks self content)).
Proof.
  pose proof (detect_breaks_types self content) as Hty.
  unfold classify_content_type.
  destruct (detect_breaks self content) as [|b l] eqn:E.
  { split_and!; [compute_done|done|]. split; [done|]. simpl. lia. }
  set (bs := b :: l) in *.
  assert (Hmem : ∀ ty, ty ∈ break_type <$> bs
                        ↔ ∃ x, x ∈ bs ∧ break_type x = ty).
  { intros ty. rewrite list_elem_of_fmap.
    split; [intros (x & -> & Hx)|intros (x & Hx & <-)]; eauto. }
  repeat case_decide.
  - split_and!; [compute_done|done|]. split; [done|].
    intros [_ Hall]. rewrite Forall_forall in Hall.
    apply Hmem in H as (x & Hx & Ht). by rewrite (Hall x Hx) in Ht.
  - split_and!; [compute_done|done|]. split; [done|].
    intros [_ Hall]. rewrite Forall_forall in Hall.
    apply Hmem in H0 as (x & Hx & Ht). by rewrite (Hall x Hx) in Ht.
  - split_and!; [compute_done|done|]. split; [done|].
    intros [Hlen Hall]. apply count_type_all in Hall.
    unfold len in *. lia.
  - split_and!; [compute_done|done|]. split; [done|].
    intros [_ Hall]. rewrite Forall_forall in Hall.
    apply Hmem in H2 as (x & Hx & Ht). by rewrite (Hall x Hx) in Ht.
  - split_and!; [compute_done|done|]. split; [|done]. intros _.
    assert (Hall : Forall (fun x => break_type x = txt "surprise_marker") bs).
    { rewrite Forall_forall in Hty |- *. intros x Hx.
      specialize (Hty x Hx). rewrite !elem_of_cons in Hty.
      destruct Hty as [Ht|[Ht|[Ht|[Ht|Ht]]]];
        [done|..|by apply elem_of_nil in Ht]; exfalso.
      + apply H. apply Hmem. eauto.
      + apply H0. apply Hmem. eauto.
      + apply H2. apply Hmem. eauto. }
    split; [|done]. apply count_type_all in Hall.
    unfold len in *. subst bs. simpl in *. lia.
Qed.

(** *** Strings *)

Lemma occurs_in_refl (t : str) : occurs_in t t.
Proof. exists [], []. by rewrite app_nil_r. Qed.

Lemma occurs_in_trans (a b c : str) :
  occurs_in a b → occurs_in b c → occurs_in a c.
Proof.
  intros (p1 & q1 & ->) (p2 & q2 & ->).
  exists (p2 ++ p1), (q1 ++ q2). by rewrite <- !app_assoc.
Qed.

Lemma occurs_in_elem (a b : str) (c : ascii) :
  occurs_in a b → c ∈ a → c ∈ b.
Proof. intros (p & q & ->) H. rewrite !elem_of_app. auto. Qed.

Lemma lstrip_spec (t : str) :
  (∃ pre, t = pre ++ lstrip t)
  ∧ (∀ c, head (lstrip t) = Some c → isspace c = false).
Proof.
  induction t as [|c t [[pre IH1] IH2]]; simpl.
  - split; [by exists []|done].
  - destruct (isspace c) eqn:E.
    + split; [|done]. exists (c :: pre). simpl. by f_equal.
    + split; [by exists []|]. simpl. by intros ? [= <-].
Qed.

Lemma last_rev {X} (l : list X) : last (rev l) = head l.
Proof.
  destruct l as [|x l]; [done|]. simpl. by rewrite last_snoc.
Qed.

Lemma rstrip_spec (t : str) :
  (∃ post, t = rstrip t ++ post)
  ∧ (∀ c, last (rstrip t) = Some c → isspace c = false).
Proof.
  unfold rstrip. destruct (lstrip_spec (rev t)) as [[pre H1] H2]. split.
  - exists (rev pre).
    by rewrite <- rev_app_distr, <- H1, rev_involutive.
  - intros c. rewrite last_rev. apply H2.
Qed.

Lemma strip_spec (t : str) :
  occurs_in (strip t) t
  ∧ (∀ c, head (strip t) = Some c → isspace c = false)
  ∧ (∀ c, last (strip t) = Some c → isspace c = false).
Proof.
  unfold strip.
  destruct (lstrip_spec t) as [[pre H1] H2].
  destruct (rstrip_spec (lstrip t)) as [[post H3] H4].
  split_and!.
  - exists pre, post. by rewrite <- H3.
  - intros c Hc. apply H2. rewrite H3.
    by destruct (rstrip (lstrip t)).
  - done.
Qed.

(** The first piece of a split stops at the first separator. *)
Lemma split_on_go_head (sep : ascii) (t : str) :
  ∀ cur, ∃ p post rest,
    split_on_go sep cur t = (rev cur ++ p) :: rest
    ∧ t = p ++ post ∧ sep ∉ p.
Proof.
  induction t as [|c t IH]; intros cur; simpl.
  - exists [], [], []. rewrite app_nil_r. split_and!; [done|done|].
    apply not_elem_of_nil.
  - destruct (eqc c sep) eqn:E.
    + exists [], (c :: t), (split_on_go sep [] t). rewrite app_nil_r.
      split_and!; [done|done|]. apply not_elem_of_nil.
    + destruct (IH (c :: cur)) as (p & post & rest & -> & -> & Hp).
      exists (c :: p), post, rest. simpl. rewrite <- app_assoc. simpl.
      split_and!; [done|done|].
      rewrite not_elem_of_cons. split; [|done].
      intros ->. by rewrite (proj2 (eqc_eq c c) eq_refl) in E.
Qed.

Lemma split_on_head (sep : ascii) (t : str) :
  ∃ p post rest, split_on sep t = p :: rest ∧ t = p ++ post ∧ sep ∉ p.
Proof. apply (split_on_go_head sep t []). Qed.

Lemma slice_from_occurs (t : str) (i : Z) : occurs_in (slice_from t i) t.
Proof.
  unfold slice_from.
  destruct (i <? 0)%Z;
    [exists (take (Z.to_nat (Z.max 0 (len t + i))) t), []
    |exists (take (Z.to_nat i) t), []];
    by rewrite app_nil_r, take_drop.
Qed.

(** X13. [extract_core_insight] returns nothing exactly when no break
    was found.  What it returns is a piece of the text that holds no
    period and neither begins nor ends with white space; the fallback
    to the first hundred characters is never taken, since a split
    always has a first piece. *)
Theorem extract_core_insight_spec (self : ExpectationBreakClassifier)
    (content : str) :
  (extract_core_insight self content = None
   ↔ detect_breaks self content = [])
  ∧ ∀ s, extract_core_insight self content = Some s →
      occurs_in s content
      ∧ ("."%char ∉ s)
      ∧ (∀ c, head s = Some c → isspace c = false)
      ∧ (∀ c, last s = Some c → isspace c = false).
Proof.
  unfold extract_core_insight.
  destruct (detect_breaks self content) as [|b l]; [done|].
  set (insight := strip (slice_from content _)).
  destruct (split_on_head "." insight) as (p & post & rest & -> & Hi & Hp).
  split; [done|]. intros s [= <-].
  destruct (strip_spec p) as (O1 & Hh & Hl).
  split_and!; [|..|done|done].
  - eapply occurs_in_trans; [exact O1|].
    eapply occurs_in_trans; [by exists [], post|].
    eapply occurs_in_trans; [apply strip_spec|apply slice_from_occurs].
  - intros Hdot. by apply Hp, (occurs_in_elem _ _ _ O1).
Qed.

Lemma extract_core_insight_spec_witness :
  occurs_in (txt "succeeded")
    (txt "I expected it to fail, but it actually succeeded")
  ∧ ("."%char ∉ txt "succeeded").
Proof.
  destruct (extract_core_insight_spec cd
              (txt "I expected it to fail, but it actually succeeded"))
    as [_ H].
  destruct (H (txt "succeeded") eq_refl) as (H1 & H2 & _).
  by split.
Defined.

(** ** Scores *)

Lemma ltb_leb (x y : float) :
  PrimFloat.ltb x y = true → PrimFloat.leb x y = true.
Proof.
  rewrite ltb_spec, leb_spec. unfold SFltb, SFleb.
  by destruct (SFcompare _ _) as [[]|].
Qed.

(** The smaller of 1.0 and anything is at most 1.0, a NaN included. *)
Lemma fmin_one (x : float) : PrimFloat.leb (fmin 1.0 x) 1.0 = true.
Proof.
  unfold fmin. destruct (PrimFloat.ltb x 1) eqn:E; [by apply ltb_leb|].
  reflexivity.
Qed.

Import Validator.

(** A break of the detector shows a word in the text. *)
Lemma detect_breaks_words (content : str) :
  detect_breaks cd content = [] ∨ (1 ≤ len (split content))%Z.
Proof.
  destruct (detect_breaks cd content) as [|b l] eqn:E; [by left|].
  right. apply split_ink, (detect_breaks_ink content b).
  rewrite E. apply list_elem_of_here.
Qed.

Lemma calculate_surprise_density_ok (content : str) :
  ∃ v, calculate_surprise_density cd content = Ok v
       ∧ PrimFloat.leb v 1.0 = true.
Proof.
  unfold calculate_surprise_density.
  destruct (detect_breaks_words content) as [->|Hw]; [by eexists|].
  destruct (detect_breaks cd content) as [|b l]; [by eexists|].
  destruct (truediv_ok (len (b :: l)) (len (split content)))
    as [q ->]; [lia|].
  simpl. eexists. split; [done|]. apply fmin_one.
Qed.

Lemma calculate_coercion_score_ok (self : TIMValidator) (content : str) :
  ∃ v, calculate_coercion_score self content = Ok v
       ∧ PrimFloat.leb v 1.0 = true.
Proof.
  unfold calculate_coercion_score.
  destruct (validate self content None) as [[] violations]; [by eexists|].
  destruct (truediv_ok (len violations) (Z.max (len (split content)) 1))
    as [q ->]; [lia|].
  simpl. eexists. split; [done|]. apply fmin_one.
Qed.

(** X14. The three scores return a value that is at most 1.0, for
    every text. *)
Theorem scores_at_most_one (content : str) :
  (∃ v, calculate_surprise_density cd content = Ok v
        ∧ PrimFloat.leb v 1.0 = true)
  ∧ (∃ v, calculate_coercion_score vd content = Ok v
          ∧ PrimFloat.leb v 1.0 = true)
  ∧ (∃ v, calculate_invitation_score vd content = Ok v
          ∧ PrimFloat.leb v 1.0 = true).
Proof.
  split_and!.
  - apply calculate_surprise_density_ok.
  - apply calculate_coercion_score_ok.
  - unfold calculate_invitation_score.
    destruct (calculate_coercion_score_ok vd content) as (v & -> & _).
    simpl.
    match goal with
    | |- context [truediv ?a ?b] =>
        destruct (truediv_ok a b) as [q ->]; [lia|]
    end.
    simpl. eexists. split; [done|]. apply fmin_one.
Qed.

Lemma count_type_cons (ty : str) (b : ExpectationBreak)
    (l : list ExpectationBreak) :
  count_type ty (b :: l)
  = ((if decide (break_type b = ty) then 1 else 0) + count_type ty l)%Z.
Proof.
  unfold count_type, len. rewrite filter_cons.
  case_decide; simpl length; lia.
Qed.

(** The four kinds of break split a list of breaks. *)
Lemma count_type_partition (l : list ExpectationBreak) :
  Forall
    (fun b => break_type b ∈ [txt "surprise_marker"; txt "paradox";
                              txt "reversal"; txt "contrast"]) l →
  (count_type (txt "surprise_marker") l + count_type (txt "paradox") l
   + count_type (txt "reversal") l + count_type (txt "contrast") l
   = len l)%Z.
Proof.
  induction 1 as [|b l Hb Hl IH]; [done|].
  rewrite !count_type_cons.
  replace (len (b :: l)) with (1 + len l)%Z by (unfold len; simpl; lia).
  rewrite !elem_of_cons in Hb.
  destruct Hb as [->|[->|[->|[->|Hb]]]]; [..|by apply elem_of_nil in Hb];
    repeat match goal with
    | |- context [decide ?P] =>
        first [rewrite (decide_True (P:=P)) by reflexivity
              |rewrite (decide_False (P:=P)) by (by vm_compute)]
    end; lia.
Qed.

Lemma scores_lookup (a b c d e f : score) :
  let scores : gmap str score :=
    list_to_map [
      (txt "surprise_density", a); (txt "break_count", b);
      (txt "average_confidence", c); (txt "paradox_count", d);
      (txt "reversal_count", e); (txt "contrast_count", f)] in
  dom scores
  = list_to_set (txt <$> ["surprise_density"; "break_count";
                          "average_confidence"; "paradox_count";
                          "reversal_count"; "contrast_count"])
  ∧ scores !! txt "surprise_density" = Some a
  ∧ scores !! txt "break_count" = Some b
  ∧ scores !! txt "average_confidence" = Some c
  ∧ scores !! txt "paradox_count" = Some d
  ∧ scores !! txt "reversal_count" = Some e
  ∧ scores !! txt "contrast_count" = Some f.
Proof.
  intros scores.
  split_and!; [|vm_compute; reflexivity..].
  subst scores. by rewrite dom_list_to_map_L.
Qed.

(** X15. [score_expectation_breaks] returns its six scores for every
    text, whatever the rounding of [sum]: the break count is the number
    of breaks, the paradox, reversal and contrast counts and the number
    of surprise markers add up to it, the density is the one of
    [calculate_surprise_density], and the average confidence is 0.0
    when there is no break. *)
Theorem score_expectation_breaks_counts (fsum : list float -> float)
    (content : str) :
  ∃ scores density average p r c,
    score_expectation_breaks fsum cd content = Ok scores
    ∧ calculate_surprise_density cd content = Ok density
    ∧ dom scores
      = list_to_set (txt <$> ["surprise_density"; "break_count";
                              "average_confidence"; "paradox_count";
                              "reversal_count"; "contrast_count"])
    ∧ scores !! txt "surprise_density" = Some (SFloat density)
    ∧ scores !! txt "break_count"
      = Some (SInt (len (detect_breaks cd content)))
    ∧ scores !! txt "average_confidence" = Some (SFloat average)
    ∧ scores !! txt "paradox_count" = Some (SInt p)
    ∧ scores !! txt "reversal_count" = Some (SInt r)
    ∧ scores !! txt "contrast_count" = Some (SInt c)
    ∧ (0 ≤ p ∧ 0 ≤ r ∧ 0 ≤ c)%Z
    ∧ (count_type (txt "surprise_marker") (detect_breaks cd content)
       + p + r + c = len (detect_breaks cd content))%Z
    ∧ (detect_breaks cd content = [] → average = 0.0%float).
Proof.
  pose proof (count_type_partition _ (detect_breaks_types cd content)) as Hp.
  destruct (calculate_surprise_density_ok content) as (density & Hd & _).
  unfold score_expectation_breaks. rewrite Hd. simpl.
  set (bs := detect_breaks cd content) in *.
  assert (Ha : ∃ average,
    match bs with
    | [] => Ok 0.0%float
    | _ :: _ => fdiv_int (fsum (confidence <$> bs)) (len bs)
    end = Ok average ∧ (bs = [] → average = 0.0%float)).
  { destruct bs as [|b l]; [by eexists|].
    unfold fdiv_int, len. simpl length.
    destruct (Z.eqb_spec (Z.of_nat (S (length l))) 0); [lia|].
    by eexists. }
  destruct Ha as (average & -> & Hz). simpl.
  eexists.
  exists density, average, (count_type (txt "paradox") bs),
    (count_type (txt "reversal") bs), (count_type (txt "contrast") bs).
  split; [done|]. split; [done|].
  destruct (scores_lookup (SFloat density) (SInt (len bs)) (SFloat average)
              (SInt (count_type (txt "paradox") bs))
              (SInt (count_type (txt "reversal") bs))
              (SInt (count_type (txt "contrast") bs)))
    as (H0 & H1 & H2 & H3 & H4 & H5 & H6).
  split_and!; try assumption; try (unfold count_type, len; lia).
Qed.

(** ** The validator *)

(** X16. The result of [validate] depends on the constraints only
    through the two switches it reads; other keys change nothing. *)
Theorem validate_by_switches (self : TIMValidator) (content : str)
    (c1 c2 : option (gmap str bool)) :
  enabled c1 "non_coercion" = enabled c2 "non_coercion" →
  enabled c1 "coherence" = enabled c2 "coherence" →
  validate self content c1 = validate self content c2.
Proof.
  intros H1 H2.
  destruct (validate_spec self content c1) as [Ha Hb].
  destruct (validate_spec self content c2) as [Hc Hd].
  rewrite H1, H2, <- Hc in Ha.
  destruct (validate self content c1) as [b1 v1],
    (validate self content c2) as [b2 v2].
  simpl in *. by rewrite Hb, Hd, Ha.
Qed.

Lemma validate_by_switches_witness :
  validate vd (txt "you must believe, obviously") None
  = validate vd (txt "you must believe, obviously")
      (Some {[ txt "strict" := false ]}).
Proof. apply validate_by_switches; by vm_compute. Defined.

(** X17. Without constraints both checks run: the violations reported
    under any constraints are among those reported without, in the
    same order, and a text valid without constraints is valid under
    all. *)
Theorem validate_default_strictest (self : TIMValidator) (content : str)
    (constraints : option (gmap str bool)) :
  (validate self content constraints).2
    `sublist_of` (validate self content None).2
  ∧ ((validate self content None).1 = true →
     (validate self content constraints).1 = true).
Proof.
  destruct (validate_spec self content constraints) as [Ha Hb].
  destruct (validate_spec self content None) as [Hc Hd].
  change (enabled None "non_coercion") with true in Hc.
  change (enabled None "coherence") with true in Hc.
  assert (Hs : (validate self content constraints).2
                 `sublist_of` (validate self content None).2).
  { rewrite Ha, Hc. apply sublist_app.
    - destruct (enabled constraints "non_coercion");
        [done|apply sublist_nil_l].
    - destruct (enabled constraints "coherence");
        [done|apply sublist_nil_l]. }
  split; [done|].
  rewrite Hb, Hd, !bool_decide_eq_true, !len_zero.
  intros E. rewrite E in Hs. by apply sublist_nil_r.
Qed.

Lemma first_fragments_occurs (label : str) (patterns : list Pattern)
    (content : str) (v : str) :
  v ∈ first_fragments label patterns content →
  ∃ p m, p ∈ patterns ∧ v = label ++ m ∧ occurs_in m content
         ∧ lang (p_flags p) (p_re p) m.
Proof.
  unfold first_fragments, first_fragment.
  intros (p & Hp & H)%list_elem_of_omap.
  destruct (search p content) as [m|] eqn:E; [|done].
  injection H as <-.
  apply search_from_sound in E as (pre & post & Ht & L).
  exists p, (m_group m). split_and!; try done. by exists pre, post.
Qed.

Lemma first_fragments_inked (label : str) (patterns : list Pattern)
    (content : str) (v : str) :
  forallb (fun p => inked (p_flags p) (p_re p)) patterns = true →
  v ∈ first_fragments label patterns content →
  ∃ m, v = label ++ m ∧ occurs_in m content ∧ has_ink m = true.
Proof.
  rewrite forallb_forall.
  intros Hall (p & m & Hp & -> & Ho & L)%first_fragments_occurs.
  exists m. split_and!; try done.
  eapply inked_sound; [|exact L]. by apply Hall, list_elem_of_In.
Qed.

Lemma _check_coherence_messages (content : str) :
  length (_check_coherence content) ≤ 2
  ∧ ∀ v, v ∈ _check_coherence content → v ∈ coherence_messages.
Proof.
  unfold _check_coherence, coherence_messages.
  destruct (search _ content); destruct (existsb _ _); simpl;
    (split; [lia|]); intros v; rewrite ?elem_of_cons; intuition.
Qed.

Lemma validate_length (self : TIMValidator) (content : str)
    (constraints : option (gmap str bool)) :
  length (validate self content constraints).2
  ≤ length (coercion_patterns self) + length (emotional_patterns self)
    + length (pressure_patterns self) + length (authority_patterns self)
    + 2.
Proof.
  destruct (validate_spec self content constraints) as [-> _].
  destruct (_check_coherence_messages content) as [Hn _].
  unfold _check_coercion, _check_emotional_manipulation, _check_pressure,
    _check_authority_claims.
  rewrite !check_patterns_spec.
  pose proof (first_fragments_length (txt "Coercive language detected: ")
                (coercion_patterns self) content).
  pose proof (first_fragments_length
                (txt "Emotional manipulation detected: ")
                (emotional_patterns self) content).
  pose proof (first_fragments_length
                (txt "Pressure/urgency tactic detected: ")
                (pressure_patterns self) content).
  pose proof (first_fragments_length (txt "Authority claim detected: ")
                (authority_patterns self) content).
  destruct (enabled constraints "non_coercion"),
    (enabled constraints "coherence");
    cbv iota; rewrite ?length_app;
    change (length (@nil str)) with 0; lia.
Qed.

(** X18. The instance reports at most 24 violations, whatever the
    constraints.  Each is one of the two coherence messages, or the
    label of a scan followed by a fragment of the text that has a
    character other than white space. *)
Theorem validate_violations_shape (content : str)
    (constraints : option (gmap str bool)) :
  length (validate vd content constraints).2 ≤ 24
  ∧ Forall
      (fun v =>
         (∃ label frag, label ∈ scan_labels ∧ v = label ++ frag
                        ∧ occurs_in frag content ∧ has_ink frag = true)
         ∨ v ∈ coherence_messages)
      (validate vd content constraints).2.
Proof.
  split; [exact (validate_length vd content constraints)|].
  destruct (validate_spec vd content constraints) as [-> _].
  destruct (_check_coherence_messages content) as [_ Hm].
  unfold _check_coercion, _check_emotional_manipulation, _check_pressure,
    _check_authority_claims.
  rewrite !check_patterns_spec.
  apply Forall_app. split.
  - destruct (enabled constraints "non_coercion"); [|done].
    rewrite !Forall_app.
    split_and!; apply Forall_forall; intros v Hv; left;
      (apply first_fragments_inked in Hv as (m & -> & Ho & Hi);
       [|by vm_compute]);
      eexists _, m; (split_and!; [|done..]); unfold scan_labels;
      rewrite !elem_of_cons; auto.
  - destruct (enabled constraints "coherence"); [|done].
    apply Forall_forall. intros v Hv. right. by apply Hm.
Qed.

(** *** Texts without ink *)

Lemma has_ink_occurs (frag t : str) :
  occurs_in frag t → has_ink frag = true → has_ink t = true.
Proof. intros (pre & post & ->). apply has_ink_inside. Qed.

Lemma first_fragments_blank (label : str) (patterns : list Pattern)
    (content : str) :
  forallb (fun p => inked (p_flags p) (p_re p)) patterns = true →
  has_ink content = false →
  first_fragments label patterns content = [].
Proof.
  intros Hall Hb.
  destruct (first_fragments label patterns content) as [|v l] eqn:E; [done|].
  assert (Hv : v ∈ first_fragments label patterns content)
    by (rewrite E; apply list_elem_of_here).
  apply first_fragments_inked in Hv as (m & _ & Ho & Hi); [|done].
  apply (has_ink_occurs m content) in Hi; [congruence|done].
Qed.

Lemma findall_blank (p : Pattern) (content : str) :
  inked (p_flags p) (p_re p) = true → has_ink content = false →
  findall p content = [].
Proof.
  intros Hp Hb. unfold findall.
  destruct (finditer p content) as [|m l] eqn:E; [done|].
  assert (Hm : m ∈ finditer p content)
    by (rewrite E; apply list_elem_of_here).
  apply finditer_ink in Hm; [congruence|done].
Qed.

Lemma search_blank (p : Pattern) (content : str) :
  inked (p_flags p) (p_re p) = true → has_ink content = false →
  search p content = None.
Proof.
  intros Hp Hb. destruct (search p content) as [m|] eqn:E; [|done].
  apply search_from_sound in E as (pre & post & -> & L).
  apply (inked_sound _ _ Hp) in L.
  rewrite (has_ink_inside pre _ post L) in Hb. done.
Qed.

Lemma endswith_ink (t suf : str) :
  endswith t suf = true → has_ink suf = true → has_ink t = true.
Proof.
  unfold endswith. intros (post & H)%startswith_app Hs.
  apply (f_equal (@rev ascii)) in H.
  rewrite rev_involutive, rev_app_distr, rev_involutive in H.
  rewrite H, has_ink_app, Hs. apply orb_true_r.
Qed.

Lemma split_go_blank (t : str) :
  has_ink t = false → ∀ cur, split_go cur t = flush cur.
Proof.
  induction t as [|c t IH]; simpl; [done|].
  intros [Hc Ht]%orb_false_iff cur.
  apply negb_false_iff in Hc. rewrite Hc, (IH Ht). simpl.
  apply app_nil_r.
Qed.

Lemma _check_coherence_blank (content : str) :
  has_ink content = false → _check_coherence content = [].
Proof.
  intros Hb. unfold _check_coherence.
  rewrite search_blank by done.
  destruct (existsb _ _) eqn:E; [|done].
  apply existsb_exists in E as (suf & Hin & He).
  apply endswith_ink in He; [congruence|].
  simpl in Hin. by destruct Hin as [<-|[<-|[<-|[<-|[]]]]].
Qed.

(** X19. A text without a character other than white space, the empty
    text included, is valid under all constraints, with coercion score
    0.0 and invitation score 1.0, and gets no reframing. *)
Theorem blank_text_is_valid (content : str)
    (constraints : option (gmap str bool)) :
  has_ink content = false →
  validate vd content constraints = (true, [])
  ∧ calculate_coercion_score vd content = Ok 0.0%float
  ∧ calculate_invitation_score vd content = Ok 1.0%float
  ∧ suggest_reframe vd content = None.
Proof.
  intros Hb.
  assert (Hv : ∀ cs, validate vd content cs = (true, [])).
  { intros cs. destruct (validate_spec vd content cs) as [H2 H1].
    unfold _check_coercion, _check_emotional_manipulation, _check_pressure,
      _check_authority_claims in H2.
    rewrite !check_patterns_spec, !first_fragments_blank,
      _check_coherence_blank in H2 by (done || by vm_compute).
    assert (E : (validate vd content cs).2 = []).
    { rewrite H2. by destruct (enabled cs "non_coercion"),
        (enabled cs "coherence"). }
    rewrite E in H1. destruct (validate vd content cs) as [b v].
    simpl in E, H1. by rewrite E, H1. }
  assert (Hc : calculate_coercion_score vd content = Ok 0.0%float).
  { unfold calculate_coercion_score. by rewrite Hv. }
  split_and!; [done|done| |].
  - unfold calculate_invitation_score. rewrite Hc. simpl.
    rewrite !findall_blank by (done || by vm_compute).
    unfold split. rewrite split_go_blank by done.
    by vm_compute.
  - unfold suggest_reframe. by rewrite Hv.
Qed.

Lemma blank_text_is_valid_witness :
  validate vd (txt " ") None = (true, [])
  ∧ calculate_coercion_score vd (txt " ") = Ok 0.0%float
  ∧ calculate_invitation_score vd (txt " ") = Ok 1.0%float
  ∧ suggest_reframe vd (txt " ") = None.
Proof. apply blank_text_is_valid. reflexivity. Defined.
